(** * Freight dashboard (src/app.js): normalisation and aggregation layer

    A shallow embedding of the data-handling functions of [src/app.js]
    together with the part of the ECMAScript semantics they rely on.

    - JavaScript numbers are IEEE-754 binary64 values: they are modelled by
      Rocq's primitive [float], whose operations are the same ones, so every
      arithmetic expression below evaluates to the value the script computes.
    - Row objects and the objects the script uses as dictionaries are
      association lists of their own properties in insertion order.  A read
      under a computed key also finds the properties every object inherits
      from [Object.prototype]; the dictionaries are modelled with them.
    - [Array.prototype.sort] is a parameter: the language fixes its result
      only for a consistent comparator, and the statements that depend on an
      order assume an engine that conforms to it.
    - Integer-valued counters ([array.length], [count += 1]) are [nat]; they
      are converted to [float] where the script divides by them.
    - Strings are byte strings (UTF-8).  Formatting at the presentation
      boundary ([toFixed], [toLocaleString], the HTML templates, Chart.js) is
      not modelled: functions return the values that are formatted. *)

From Stdlib Require Import Reals Lra.
From Stdlib Require Import ZArith List String Ascii Bool Lia Floats.
From Stdlib Require Import DecimalString.
From Stdlib Require Import Sorting.Sorted Sorting.Permutation.
Import ListNotations.

Set Warnings "-inexact-float".

(* ================================================================== *)
(** * ECMAScript values and the built-ins used by the script            *)
(* ================================================================== *)

Module JS.

Open Scope Z_scope.

(** ** Values *)

Inductive value : Type :=
| VUndefined
| VNull
| VBool (b : bool)
| VNum (n : float)
| VStr (s : string).

(** [ToBoolean]: the values that are not falsy. *)
Definition truthy (v : value) : bool :=
  match v with
  | VUndefined | VNull => false
  | VBool b => b
  | VNum n => negb (PrimFloat.is_zero n || PrimFloat.is_nan n)
  | VStr s => negb (String.eqb s EmptyString)
  end.

(** [a || b] (both operands are side-effect free here). *)
Definition orElse (a b : value) : value := if truthy a then a else b.

(** ** Objects used as records or dictionaries *)

Definition object (A : Type) : Type := list (string * A).

Fixpoint lookup {A : Type} (k : string) (o : object A) : option A :=
  match o with
  | [] => None
  | (k', v) :: o' => if String.eqb k k' then Some v else lookup k o'
  end.

Definition row : Type := object value.

(** [row.k]: the value of the property, [undefined] when there is none.
    The script reads rows under fixed names only, none of which is the name
    of an inherited property. *)
Definition get (r : row) (k : string) : value :=
  match lookup k r with
  | Some v => v
  | None => VUndefined
  end.

(** ** Properties inherited from [Object.prototype] *)

(** The names under which every object created by [{}] finds a property of
    [Object.prototype]: eleven functions and the accessor [__proto__]. *)
Definition prototypeKeys : list string :=
  [ "constructor"; "__defineGetter__"; "__defineSetter__"; "hasOwnProperty";
    "__lookupGetter__"; "__lookupSetter__"; "isPrototypeOf";
    "propertyIsEnumerable"; "toString"; "valueOf"; "__proto__";
    "toLocaleString" ]%string.

Definition inherited (k : string) : bool :=
  existsb (String.eqb k) prototypeKeys.

(** What [o[k]] finds: an own property, an inherited one (a function, or
    the prototype object itself for [__proto__]: an object, hence truthy,
    which converts to the number NaN), or nothing. *)
Inductive property (A : Type) : Type :=
| Own (a : A)
| Inherited
| Absent.

Arguments Own {A}.
Arguments Inherited {A}.
Arguments Absent {A}.

Definition read {A : Type} (o : object A) (k : string) : property A :=
  match lookup k o with
  | Some a => Own a
  | None => if inherited k then Inherited else Absent
  end.

(** ** Characters and strings *)

Definition code (c : ascii) : Z := Z.of_nat (nat_of_ascii c).

Definition is_digit (c : ascii) : bool := (48 <=? code c) && (code c <=? 57).

Definition digit_val (c : ascii) : Z := code c - 48.

Definition lower_char (c : ascii) : ascii :=
  if (65 <=? code c) && (code c <=? 90)
  then ascii_of_nat (nat_of_ascii c + 32)
  else c.

(** [s.toLowerCase()].  Only the ASCII letters are mapped; the keywords the
    script searches for are ASCII. *)
Fixpoint toLowerCase (s : string) : string :=
  match s with
  | EmptyString => EmptyString
  | String c s' => String (lower_char c) (toLowerCase s')
  end.

Fixpoint startsWith (p s : string) : bool :=
  match p, s with
  | EmptyString, _ => true
  | String a p', String b s' => Ascii.eqb a b && startsWith p' s'
  | String _ _, EmptyString => false
  end.

(** [s.includes(p)] *)
Fixpoint includes (s p : string) : bool :=
  startsWith p s ||
  match s with
  | EmptyString => false
  | String _ s' => includes s' p
  end.


(** ** Decimal text to binary64 *)

Definition SF_of_Z (neg : bool) (m : Z) : spec_float :=
  binary_normalize prec emax (if neg then - m else m) 0 neg.

(** The binary64 value nearest to [m * 10 ^ e10] (ties to even), for
    [0 <= m] with [nd] decimal digits.  The two guards decide overflow and
    underflow without building the huge power of ten. *)
Definition SF_of_decimal (neg : bool) (m : Z) (nd : Z) (e10 : Z) : spec_float :=
  match m with
  | Zpos p =>
      if 310 <? e10 + nd then S754_infinity neg
      else if e10 + nd <? -330 then S754_zero neg
      else if 0 <=? e10 then SF_of_Z neg (m * 10 ^ e10)
      else match 10 ^ (- e10) with
           | Zpos q => SFdiv prec emax (S754_finite neg p 0) (S754_finite false q 0)
           | _ => S754_nan
           end
  | _ => S754_zero neg
  end.

Fixpoint span_digits (l : list ascii) : list ascii * list ascii :=
  match l with
  | c :: l' =>
      if is_digit c
      then let (ds, rest) := span_digits l' in (c :: ds, rest)
      else ([], l)
  | [] => ([], [])
  end.

Definition digits_to_Z (ds : list ascii) : Z :=
  fold_left (fun acc c => 10 * acc + digit_val c) ds 0.

Fixpoint drop_zeros (ds : list ascii) : list ascii :=
  match ds with
  | c :: ds' => if Ascii.eqb c "0"%char then drop_zeros ds' else ds
  | [] => []
  end.

(** [DecimalDigits . DecimalDigits?] or [. DecimalDigits]: the digits read,
    the number of digits after the point, and the unread text. *)
Definition scan_mantissa (l : list ascii)
  : option (list ascii * Z * list ascii) :=
  let (ip, rest) := span_digits l in
  match rest with
  | "."%char :: rest1 =>
      let (fp, rest2) := span_digits rest1 in
      match ip, fp with
      | [], [] => None
      | _, _ => Some ((ip ++ fp)%list, Z.of_nat (List.length fp), rest2)
      end
  | _ =>
      match ip with
      | [] => None
      | _ => Some (ip, 0, rest)
      end
  end.

(** [ExponentPart]: [e] or [E], an optional sign and at least one digit. *)
Definition scan_exponent (l : list ascii) : option (Z * list ascii) :=
  match l with
  | c :: l1 =>
      if Ascii.eqb c "e"%char || Ascii.eqb c "E"%char then
        let '(neg, l2) :=
          match l1 with
          | "-"%char :: l2 => (true, l2)
          | "+"%char :: l2 => (false, l2)
          | _ => (false, l1)
          end in
        let (ds, rest) := span_digits l2 in
        match ds with
        | [] => None
        | _ => Some (if neg then - digits_to_Z ds else digits_to_Z ds, rest)
        end
      else None
  | [] => None
  end.

Definition scan_sign (l : list ascii) : bool * list ascii :=
  match l with
  | "-"%char :: l' => (true, l')
  | "+"%char :: l' => (false, l')
  | _ => (false, l)
  end.

Definition Infinity_text : list ascii := list_ascii_of_string "Infinity".

Fixpoint strip_prefix (p l : list ascii) : option (list ascii) :=
  match p, l with
  | [], _ => Some l
  | a :: p', b :: l' => if Ascii.eqb a b then strip_prefix p' l' else None
  | _ :: _, [] => None
  end.

(** The longest prefix of [l] that is a [StrDecimalLiteral]: its value and
    the unread text. *)
Definition scan_decimal_literal (l : list ascii)
  : option (spec_float * list ascii) :=
  let (neg, l1) := scan_sign l in
  match strip_prefix Infinity_text l1 with
  | Some rest => Some (S754_infinity neg, rest)
  | None =>
      match scan_mantissa l1 with
      | None => None
      | Some (ds, nfrac, rest) =>
          let sig := drop_zeros ds in
          let m := digits_to_Z sig in
          let nd := Z.of_nat (List.length sig) in
          match scan_exponent rest with
          | Some (e, rest') =>
              Some (SF_of_decimal neg m nd (e - nfrac), rest')
          | None => Some (SF_of_decimal neg m nd (- nfrac), rest)
          end
      end
  end.

(** White space and line terminators, as UTF-8 byte sequences. *)
Definition bytes (l : list nat) : list ascii := map ascii_of_nat l.

Definition white_space : list (list ascii) :=
  map bytes
    [ [9]; [10]; [11]; [12]; [13]; [32]
    ; [194; 160]
    ; [225; 154; 128]
    ; [226; 128; 128]; [226; 128; 129]; [226; 128; 130]; [226; 128; 131]
    ; [226; 128; 132]; [226; 128; 133]; [226; 128; 134]; [226; 128; 135]
    ; [226; 128; 136]; [226; 128; 137]; [226; 128; 138]
    ; [226; 128; 168]; [226; 128; 169]; [226; 128; 175]
    ; [226; 129; 159]
    ; [227; 128; 128]
    ; [239; 187; 191] ]%nat.

Fixpoint strip_one (ws : list (list ascii)) (l : list ascii)
  : option (list ascii) :=
  match ws with
  | [] => None
  | w :: ws' =>
      match strip_prefix w l with
      | Some rest => Some rest
      | None => strip_one ws' l
      end
  end.

Fixpoint trim_start_fuel (ws : list (list ascii)) (fuel : nat) (l : list ascii)
  : list ascii :=
  match fuel with
  | O => l
  | S fuel' =>
      match strip_one ws l with
      | Some rest => trim_start_fuel ws fuel' rest
      | None => l
      end
  end.

(** Every white-space sequence is non-empty, so [length l] steps suffice. *)
Definition trimStart (l : list ascii) : list ascii :=
  trim_start_fuel white_space (List.length l) l.

Definition trimEnd (l : list ascii) : list ascii :=
  rev (trim_start_fuel (map (@rev ascii) white_space) (List.length l) (rev l)).

Definition trim (l : list ascii) : list ascii := trimEnd (trimStart l).

(** [parseFloat(s)] *)
Definition parseFloat (s : string) : float :=
  match scan_decimal_literal (trimStart (list_ascii_of_string s)) with
  | Some (x, _) => SF2Prim x
  | None => nan
  end.

(** Digits of a [NonDecimalIntegerLiteral] in the given radix. *)
Definition radix_digit (radix : Z) (c : ascii) : option Z :=
  let n := code c in
  let d :=
    if (48 <=? n) && (n <=? 57) then n - 48
    else if (97 <=? n) && (n <=? 102) then n - 87
    else if (65 <=? n) && (n <=? 70) then n - 55
    else radix in
  if d <? radix then Some d else None.

Fixpoint radix_value (radix : Z) (acc : Z) (l : list ascii) : option Z :=
  match l with
  | [] => Some acc
  | c :: l' =>
      match radix_digit radix c with
      | Some d => radix_value radix (radix * acc + d) l'
      | None => None
      end
  end.

Definition non_decimal_literal (l : list ascii) : option Z :=
  match l with
  | "0"%char :: p :: (_ :: _) as ds =>
      let radix :=
        if Ascii.eqb p "x"%char || Ascii.eqb p "X"%char then 16
        else if Ascii.eqb p "o"%char || Ascii.eqb p "O"%char then 8
        else if Ascii.eqb p "b"%char || Ascii.eqb p "B"%char then 2
        else 0 in
      if radix =? 0 then None else radix_value radix 0 ds
  | _ => None
  end.

(** [StringToNumber] *)
Definition StringToNumber (s : string) : float :=
  match trim (list_ascii_of_string s) with
  | [] => zero
  | l =>
      match non_decimal_literal l with
      | Some n => SF2Prim (SF_of_Z false n)
      | None =>
          match scan_decimal_literal l with
          | Some (x, []) => SF2Prim x
          | _ => nan
          end
      end
  end.

(** [Number(v)], that is [ToNumber]. *)
Definition Number (v : value) : float :=
  match v with
  | VUndefined => nan
  | VNull => zero
  | VBool b => if b then one else zero
  | VNum n => n
  | VStr s => StringToNumber s
  end.

(** Conversion of an integer-valued count to a number (exact below 2^53). *)
Definition of_nat (n : nat) : float :=
  PrimFloat.of_uint63 (Uint63.of_Z (Z.of_nat n)).

(** ** Binary64 to decimal text ([Number::toString], radix 10) *)

Definition digits_of_Z (z : Z) : string :=
  NilZero.string_of_uint (N.to_uint (Z.to_N z)).

Fixpoint zeros (n : nat) : string :=
  match n with
  | O => EmptyString
  | S n' => String "0"%char (zeros n')
  end.

Fixpoint take (n : nat) (s : string) : string :=
  match n, s with
  | S n', String c s' => String c (take n' s')
  | _, _ => EmptyString
  end.

Fixpoint drop (n : nat) (s : string) : string :=
  match n, s with
  | S n', String _ s' => drop n' s'
  | _, _ => s
  end.

(** The positive value [m * 2 ^ e] as a fraction. *)
Definition fraction_of (m : positive) (e : Z) : Z * Z :=
  if 0 <=? e then (Zpos m * 2 ^ e, 1) else (Zpos m, 2 ^ (- e)).

(** [P / Q < 10 ^ n] *)
Definition below_pow10 (P Q n : Z) : bool :=
  if 0 <=? n then P <? Q * 10 ^ n else P * 10 ^ (- n) <? Q.

Fixpoint find_exponent (fuel : nat) (n P Q : Z) : Z :=
  match fuel with
  | O => n
  | S fuel' => if below_pow10 P Q n then n else find_exponent fuel' (n + 1) P Q
  end.

(** [floor (P / Q * 10 ^ j)] *)
Definition scaled_floor (P Q j : Z) : Z :=
  if 0 <=? j then (P * 10 ^ j) / Q else P / (Q * 10 ^ (- j)).

(** [P / Q * 10 ^ j] compared with [lo + 1/2]. *)
Definition compare_half (P Q j lo : Z) : comparison :=
  if 0 <=? j then 2 * P * 10 ^ j ?= (2 * lo + 1) * Q
  else 2 * P ?= (2 * lo + 1) * Q * 10 ^ (- j).

Definition reads_back (x : spec_float) (s k e10 : Z) : bool :=
  SFeqb (SF_of_decimal false s (if s =? 10 ^ k then k + 1 else k) e10) x.

(** The shortest digit string [s] (with [k] digits) and exponent [n] such
    that [s * 10 ^ (n - k)] reads back as [x]; among the candidates of that
    length the one closest to [x], the even one on a tie. *)
Fixpoint shortest (fuel : nat) (x : spec_float) (P Q n k : Z) : Z * Z * Z :=
  let lo := scaled_floor P Q (k - n) in
  let hi := lo + 1 in
  match fuel with
  | O => (lo, k, n)
  | S fuel' =>
      let pick s := if s =? 10 ^ k then (1, 1, n + 1) else (s, k, n) in
      match reads_back x lo k (n - k), reads_back x hi k (n - k) with
      | true, false => pick lo
      | false, true => pick hi
      | true, true =>
          match compare_half P Q (k - n) lo with
          | Lt => pick lo
          | Gt => pick hi
          | Eq => if Z.even lo then pick lo else pick hi
          end
      | false, false => shortest fuel' x P Q n (k + 1)
      end
  end.

Definition exponent_text (e : Z) : string :=
  ((if (0 <=? e)%Z then "e+" else "e-") ++ digits_of_Z (Z.abs e))%string.

Definition format_digits (ds : string) (k n : Z) : string :=
  if (k <=? n) && (n <=? 21) then (ds ++ zeros (Z.to_nat (n - k)))%string
  else if (0 <? n) && (n <=? 21) then
    (take (Z.to_nat n) ds ++ "." ++ drop (Z.to_nat n) ds)%string
  else if (-6 <? n) && (n <=? 0) then
    ("0." ++ zeros (Z.to_nat (- n)) ++ ds)%string
  else if k =? 1 then (ds ++ exponent_text (n - 1))%string
  else (take 1 ds ++ "." ++ drop 1 ds ++ exponent_text (n - 1))%string.

Definition numberToString (x : float) : string :=
  match Prim2SF x with
  | S754_nan => "NaN"%string
  | S754_zero _ => "0"%string
  | S754_infinity neg => if neg then "-Infinity"%string else "Infinity"%string
  | S754_finite neg m e =>
      let (P, Q) := fraction_of m e in
      let n := find_exponent 700 (-324) P Q in
      let '(s, k, n') := shortest 17 (S754_finite false m e) P Q n 1 in
      ((if neg then "-" else "") ++ format_digits (digits_of_Z s) k n')%string
  end.

(** [ToPropertyKey] of a primitive value, the key under which [o[v]] is
    stored. *)
Definition toPropertyKey (v : value) : string :=
  match v with
  | VUndefined => "undefined"%string
  | VNull => "null"%string
  | VBool b => if b then "true"%string else "false"%string
  | VNum n => numberToString n
  | VStr s => s
  end.

(** ** Dictionaries and their enumeration order *)

(** An array index is the canonical decimal text of an integer below
    [2^32 - 1]. *)
Definition array_index (k : string) : option Z :=
  let l := list_ascii_of_string k in
  match l with
  | [] => None
  | c :: rest =>
      if forallb is_digit l
         && (negb (Ascii.eqb c "0"%char) || match rest with [] => true | _ => false end)
         && (Z.of_nat (List.length l) <=? 10)
         && (digits_to_Z l <? 4294967295)
      then Some (digits_to_Z l)
      else None
  end.

Fixpoint insert_index {A : Type} (i : Z) (kv : string * A)
  (l : list (Z * (string * A))) : list (Z * (string * A)) :=
  match l with
  | [] => [(i, kv)]
  | (j, kv') :: l' =>
      if i <? j then (i, kv) :: l else (j, kv') :: insert_index i kv l'
  end.

Fixpoint index_entries {A : Type} (o : object A) : list (Z * (string * A)) :=
  match o with
  | [] => []
  | (k, v) :: o' =>
      match array_index k with
      | Some i => insert_index i (k, v) (index_entries o')
      | None => index_entries o'
      end
  end.

(** [Object.entries(o)]: array-index keys in ascending order, then the other
    keys in insertion order. *)
Definition entries {A : Type} (o : object A) : list (string * A) :=
  (map snd (index_entries o)
   ++ filter (fun kv => match array_index (fst kv) with
                        | Some _ => false
                        | None => true
                        end) o)%list.

(** [o[k] = f(o[k])] when the own property exists, [o[k] = f(init)]
    appended as a new own property otherwise. *)
Fixpoint upsert {A : Type} (k : string) (init : A) (f : A -> A)
  (o : object A) : object A :=
  match o with
  | [] => [(k, f init)]
  | (k', v) :: o' =>
      if String.eqb k k' then (k', f v) :: o'
      else (k', v) :: upsert k init f o'
  end.

(** [if (!o[k]) o[k] = init; o[k].field += ...] on a dictionary of records.
    Under the name of an inherited property [o[k]] is that function or
    object: it is truthy, so no own property is created, and the updates
    are written to fields of the built-in object, which the script reads
    nowhere (for [__proto__] they leave [totalDelay] and [count] with the
    value NaN on [Object.prototype]; NaN is falsy, so reads of these two
    names behave as if the property were absent, as modelled). *)
Definition accumulate {A : Type} (k : string) (init : A) (f : A -> A)
  (o : object A) : object A :=
  match read o k with
  | Own _ | Absent => upsert k init f o
  | Inherited => o
  end.

(** The value of a property of a dictionary of amounts: a number, or the
    string that [+] yields on an inherited function (the function's source
    text, which depends on the engine, followed by the decimal texts of the
    amounts added).  The script passes these values to [Math.round] and to
    [-] only, which convert them by [ToNumber]; the text is not
    represented. *)
Inductive amount : Type :=
| Num (n : float)
| Text.

(** [ToNumber]: a string that starts with the source text of a function is
    no numeric literal. *)
Definition numberOf (a : amount) : float :=
  match a with
  | Num n => n
  | Text => nan
  end.

(** [if (!o[k]) o[k] = 0; o[k] += e], and equally
    [o[k] = (o[k] || 0) + e].  An own number is replaced by 0 when it is
    falsy and [e] is added; an own string is truthy and grows.  Under the
    name of an inherited function the sum is a string, stored as a new own
    property; under [__proto__] the assignment goes to the accessor, which
    ignores a value that is not an object. *)
Definition addAmount (e : float) (k : string) (o : object amount)
  : object amount :=
  match read o k with
  | Own _ | Absent =>
      upsert k (Num 0%float)
        (fun cur =>
           match cur with
           | Num c => Num ((if truthy (VNum c) then c else 0) + e)%float
           | Text => Text
           end) o
  | Inherited =>
      if String.eqb k "__proto__" then o else (o ++ [(k, Text)])%list
  end.

(** ** [Array.prototype.sort] *)

(** The sort calls the comparator through [SortCompare], which turns a NaN
    result into +0.  [placedAfter comparefn a b] says that the result for
    [(a, b)] is positive, [placedBefore] that it is negative, [tied] that it
    is zero. *)
Definition placedAfter {A : Type} (comparefn : A -> A -> float) (a b : A)
  : bool :=
  (0 <? comparefn a b)%float.

Definition placedBefore {A : Type} (comparefn : A -> A -> float) (a b : A)
  : bool :=
  (comparefn a b <? 0)%float.

Definition tied {A : Type} (comparefn : A -> A -> float) (a b : A) : bool :=
  negb (placedBefore comparefn a b) && negb (placedAfter comparefn a b).

(** A comparator is consistent for the elements of [l] (ECMAScript,
    Array.prototype.sort) when being tied is reflexive, symmetric and
    transitive, and being placed before and being placed after are
    transitive.  The comparators of the script are pure, so they return the
    same number for the same pair. *)
Definition consistent {A : Type} (comparefn : A -> A -> float) (l : list A)
  : Prop :=
  forall a b c, In a l -> In b l -> In c l ->
    tied comparefn a a = true
    /\ (tied comparefn a b = true -> tied comparefn b a = true)
    /\ (tied comparefn a b = true -> tied comparefn b c = true ->
        tied comparefn a c = true)
    /\ (placedBefore comparefn a b = true -> placedBefore comparefn b c = true ->
        placedBefore comparefn a c = true)
    /\ (placedAfter comparefn a b = true -> placedAfter comparefn b c = true ->
        placedAfter comparefn a c = true).

(** The stable sort: insertion from the right, where an element moves past
    exactly those it is placed after.  For a consistent comparator this is
    the order the language prescribes (sorted, ties in their original
    order). *)
Fixpoint sort_insert {A : Type} (after : A -> A -> bool) (x : A) (l : list A)
  : list A :=
  match l with
  | [] => [x]
  | y :: l' => if after x y then y :: sort_insert after x l' else x :: l
  end.

Definition insertionSort {A : Type} (after : A -> A -> bool) (l : list A)
  : list A :=
  fold_right (sort_insert after) [] l.

Definition stableSort (A : Type) (comparefn : A -> A -> float) (l : list A)
  : list A :=
  insertionSort (placedAfter comparefn) l.

(** What the language requires of an engine's [Array.prototype.sort]: the
    result holds the elements of the array, and for a consistent comparator
    it is the stable sort.  For an inconsistent comparator the order is left
    to the engine. *)
Definition conforming
  (sort : forall A : Type, (A -> A -> float) -> list A -> list A) : Prop :=
  (forall (A : Type) (comparefn : A -> A -> float) (l : list A),
      Permutation (sort A comparefn l) l)
  /\ (forall (A : Type) (comparefn : A -> A -> float) (l : list A),
         consistent comparefn l -> sort A comparefn l = stableSort A comparefn l).

End JS.

(* ================================================================== *)
(** * The script: src/app.js                                            *)
(* ================================================================== *)

Module App.

Import JS.
Open Scope float_scope.

(** [a || b || c] associates to the left, as in the script. *)
Notation "a ||| b" := (JS.orElse a b) (at level 50, left associativity).

(** Property access [row.k]. *)
Notation "r @ k" := (JS.get r k%string) (at level 9, k at level 0).

(** ** Configuration *)

(** [COST_PER_DELAY_DAY] (lines 7-11), as a function of [cpdParam], the
    result of [urlParams.get('cpd')]: [None] is [null], the parameter is
    absent. *)
Definition COST_PER_DELAY_DAY (cpdParam : option string) : float :=
  match cpdParam with
  | Some s =>
      if truthy (VStr s)
      then (let p := parseFloat s in if truthy (VNum p) then p else 120)
      else 120
  | None => 120
  end.

(** ** Numeric coercion *)

(** [num] (lines 21-24) *)
Definition num (v : value) : float :=
  let n := Number v in
  if PrimFloat.is_nan n then 0 else n.

(** ** Correlation *)

Record point : Type := { distance : float; cost : float }.

(** [calculatePearsonCorrelation] (lines 917-934).  [sumXY] is the script's
    [x.reduce((sum, xi, i) => sum + xi * y[i], 0)]. *)
Definition calculatePearsonCorrelation (points : list point) : float :=
  let n := List.length points in
  if Nat.ltb n 2 then 0 else
  let x := map distance points in
  let y := map cost points in
  let sumX := fold_left (fun a b => a + b) x 0 in
  let sumY := fold_left (fun a b => a + b) y 0 in
  let sumXY := fold_left (fun sum p => sum + distance p * cost p) points 0 in
  let sumX2 := fold_left (fun sum xi => sum + xi * xi) x 0 in
  let sumY2 := fold_left (fun sum yi => sum + yi * yi) y 0 in
  let numerator := of_nat n * sumXY - sumX * sumY in
  let denominator :=
    PrimFloat.sqrt
      ((of_nat n * sumX2 - sumX * sumX) * (of_nat n * sumY2 - sumY * sumY)) in
  if denominator =? 0 then 0 else numerator / denominator.

(** ** Risk classification *)

(** The thresholds applied to a numeric risk score (lines 241-249 and
    256-264). *)
Definition riskByScore (riskScore : float) : string :=
  if riskScore <=? 0.3 then "Low"
  else if riskScore <=? 0.6 then "Medium"
  else if riskScore <=? 0.8 then "High"
  else "Critical".

(** [normalizedRisk] as computed in [createRiskDistributionChart]
    (lines 226-265). *)
Definition normalizedRisk (riskLevel : value) : string :=
  match riskLevel with
  | VStr s =>
      let lowerRisk := toLowerCase s in
      if includes lowerRisk "low" || String.eqb lowerRisk "l" then "Low"
      else if includes lowerRisk "medium" || includes lowerRisk "med"
              || String.eqb lowerRisk "m" then "Medium"
      else if includes lowerRisk "high" || String.eqb lowerRisk "h" then "High"
      else if includes lowerRisk "critical" || includes lowerRisk "crit"
      then "Critical"
      else
        let riskScore := num riskLevel in
        if negb (PrimFloat.is_nan riskScore) then riskByScore riskScore
        else s
  | VNum n => riskByScore n
  | _ => "Unknown"
  end.

(** The same classification as written in [renderInsights] (lines 798-833),
    where the last alternative is absent and the initial ["Unknown"] stays. *)
Definition normalizedRiskInsight (riskLevel : value) : string :=
  match riskLevel with
  | VStr s =>
      let lowerRisk := toLowerCase s in
      if includes lowerRisk "low" || String.eqb lowerRisk "l" then "Low"
      else if includes lowerRisk "medium" || includes lowerRisk "med"
              || String.eqb lowerRisk "m" then "Medium"
      else if includes lowerRisk "high" || String.eqb lowerRisk "h" then "High"
      else if includes lowerRisk "critical" || includes lowerRisk "crit"
      then "Critical"
      else
        let riskScore := num riskLevel in
        if negb (PrimFloat.is_nan riskScore) then riskByScore riskScore
        else "Unknown"
  | VNum n => riskByScore n
  | _ => "Unknown"
  end.

(** ** Field chains, one definition per chain that occurs in the script *)

(** Lines 54, 62, 68, 104, 761 and 786. *)
Definition delayDaysKpi (row : JS.row) : float :=
  num (row@"actual_delay_days" ||| row@"DelayDays" ||| VNum 0).

(** Line 33. *)
Definition delayDaysSavings (row : JS.row) : float :=
  num (row@"DelayDays" ||| row@"delay_days" ||| row@"delay" ||| row@"Delay"
       ||| VNum 0).

(** Lines 103 and 760. *)
Definition carrierOf (row : JS.row) : value :=
  row@"carrier_name" ||| row@"Carrier" ||| row@"carrier" ||| VStr "Unknown".

(** Lines 223 and 795. *)
Definition riskLevelOf (row : JS.row) : value :=
  row@"risk_level" ||| row@"RiskLevel" ||| row@"risk" ||| row@"ai_risk_score"
  ||| VStr "Unknown".

(** Line 623. *)
Definition modeOf (row : JS.row) : value :=
  row@"transport_mode" ||| row@"mode" ||| row@"Mode" ||| VStr "Unknown".

(** Lines 626 and 869. *)
Definition actualEmissionsOf (row : JS.row) : float :=
  num (row@"emissions_kg" ||| row@"EmissionsKg" ||| row@"carbon_emissions_kg"
       ||| VNum 0).

(** Lines 630, 846 and 873. *)
Definition distanceKmOf (row : JS.row) : float :=
  num (row@"route_distance_km" ||| row@"distance_km" ||| row@"DistanceKm"
       ||| VNum 0).

(** Line 358. *)
Definition distanceKmScatter (row : JS.row) : float :=
  num (row@"route_distance_km" ||| row@"DistanceKm" ||| row@"distance_km"
       ||| VNum 0).

(** Lines 631 and 874. *)
Definition weightKgOf (row : JS.row) : float :=
  num (row@"weight_kg" ||| row@"WeightKg" ||| VNum 0).

(** Lines 359 and 847. *)
Definition costUsdOf (row : JS.row) : float :=
  num (row@"cost_usd" ||| row@"CostUSD" ||| row@"cost" ||| VNum 0).

(** Line 360. *)
Definition shipmentIdOf (row : JS.row) : value :=
  row@"shipment_id" ||| row@"ShipmentId" ||| row@"shipment" ||| VStr "Unknown".

(** Lines 865 and 866. *)
Definition originOf (row : JS.row) : value :=
  row@"origin_city" ||| row@"Origin" ||| VStr "Unknown".

Definition destinationOf (row : JS.row) : value :=
  row@"destination_city" ||| row@"Destination" ||| VStr "Unknown".

(** Line 872. *)
Definition routeModeOf (row : JS.row) : value :=
  row@"transport_mode" ||| row@"mode" ||| row@"Mode" ||| VStr "Road".

(** Lines 955 to 958. *)
Definition lateIdOf (row : JS.row) : value :=
  row@"ID" ||| row@"id" ||| row@"Reference" ||| row@"reference" ||| VStr "-".

Definition lateCarrierOf (row : JS.row) : value :=
  row@"Carrier" ||| row@"carrier" ||| VStr "Unknown".

Definition lateOriginOf (row : JS.row) : value :=
  row@"Origin" ||| row@"origin" ||| row@"origin_city" ||| VStr "Unknown".

Definition lateDestinationOf (row : JS.row) : value :=
  row@"Destination" ||| row@"destination" ||| row@"destination_city"
  ||| VStr "Unknown".


(** ** Emissions *)

(** The object literal [factors] (lines 610-615 and 862), in g CO2 per
    ton-km. *)
Definition factors : object float :=
  [("Air", 500); ("Road", 62); ("Rail", 22); ("Sea", 10)]%string.

(** [factors[mode] || factors.Road], as the number that the product
    [distanceKm * factor] makes of it.  Under the name of an inherited
    property [factors[mode]] is a function (or the prototype object), which
    is truthy, so [factors.Road] is not used, and the product converts it
    to NaN. *)
Definition factorOf (mode : value) : float :=
  match read factors (toPropertyKey mode) with
  | Own f => if truthy (VNum f) then f else 62
  | Inherited => nan
  | Absent => 62
  end.

(** The estimate made when a row carries no actual emissions (lines 630-638
    and 873-877). *)
Definition estimatedEmissions (mode : value) (row : JS.row) : float :=
  let distanceKm := distanceKmOf row in
  let weightKg := weightKgOf row in
  let tons := if 0 <? weightKg then weightKg / 1000 else 1 in
  let factor := factorOf mode in
  (distanceKm * factor * tons) / 1000.

(** [emissionsKg] of one row, as computed in the loop of
    [createModeEmissionsChart] (lines 621-639). *)
Definition emissionsKg (row : JS.row) : float :=
  let mode := modeOf row in
  let emissionsKg := actualEmissionsOf row in
  if emissionsKg <=? 0 then estimatedEmissions mode row else emissionsKg.

(** [if (!modeEmissions[mode]) modeEmissions[mode] = 0;
     modeEmissions[mode] += emissionsKg] (lines 642-645) *)
Definition modeEmissionsOf (rows : list JS.row) : object amount :=
  fold_left
    (fun acc row => addAmount (emissionsKg row) (toPropertyKey (modeOf row)) acc)
    rows [].

Definition totalEmissionsOf (rows : list JS.row) : float :=
  fold_left (fun total row => total + emissionsKg row) rows 0.

(** The chart data of [createModeEmissionsChart] (lines 602-656): per-mode
    totals in enumeration order (before [Math.round]) and the overall
    total. *)
Definition createModeEmissionsChart (rows : list JS.row)
  : option (list (string * amount) * float) :=
  match rows with
  | [] => None
  | _ =>
      match entries (modeEmissionsOf rows) with
      | [] => None
      | es => Some (es, totalEmissionsOf rows)
      end
  end.

(** ** Carrier delay ranking *)

Record carrierStat : Type := { totalDelay : float; count : nat }.

Record carrierAvg : Type :=
  { name : string; avgDelay : float; shipments : nat }.

Definition addDelay (delayDays : float) (d : carrierStat) : carrierStat :=
  {| totalDelay := totalDelay d + delayDays; count := S (count d) |}.

Definition carrierDataOf (rows : list JS.row) : object carrierStat :=
  fold_left
    (fun acc row =>
       accumulate (toPropertyKey (carrierOf row))
                  {| totalDelay := 0; count := 0 |}
                  (addDelay (delayDaysKpi row)) acc)
    rows [].

Definition toCarrierAvg (e : string * carrierStat) : carrierAvg :=
  {| name := fst e;
     avgDelay := totalDelay (snd e) / of_nat (count (snd e));
     shipments := count (snd e) |}.

(** The comparator [(a, b) => b.avgDelay - a.avgDelay]. *)
Definition byAvgDelayDesc (a b : carrierAvg) : float :=
  avgDelay b - avgDelay a.

(** The carriers with at least 5 rows and their means, before the sort. *)
Definition carrierAveragesOf (rows : list JS.row) : list carrierAvg :=
  map toCarrierAvg
    (filter (fun e => Nat.leb 5 (count (snd e)))
       (entries (carrierDataOf rows))).

Section Engine.

(** [Array.prototype.sort] of the engine that runs the script. *)
Variable sort : forall A : Type, (A -> A -> float) -> list A -> list A.

Definition filteredCarriersOf (rows : list JS.row) : list carrierAvg :=
  sort _ byAvgDelayDesc (carrierAveragesOf rows).

(** The chart data of [createDelayByCarrierChart] (lines 93-130); [None]
    when the function returns before drawing. *)
Definition createDelayByCarrierChart (rows : list JS.row)
  : option (list carrierAvg) :=
  match rows with
  | [] => None
  | _ =>
      match filteredCarriersOf rows with
      | [] => None
      | cs => Some cs
      end
  end.

(** ** Risk distribution *)

(** [riskCounts[normalizedRisk] = (riskCounts[normalizedRisk] || 0) + 1]
    (lines 266 and 835).  [num] never yields NaN, so the key is always one of
    the five labels; none of them names an inherited property, and the read
    finds an own count or nothing. *)
Definition riskCountsOf (classify : value -> string) (rows : list JS.row)
  : object nat :=
  fold_left
    (fun acc row => upsert (classify (riskLevelOf row)) 0%nat S acc)
    rows [].

(** Labels and counts of [createRiskDistributionChart] (lines 213-277). *)
Definition createRiskDistributionChart (rows : list JS.row)
  : option (list (string * nat)) :=
  match rows with
  | [] => None
  | _ =>
      match entries (riskCountsOf normalizedRisk rows) with
      | [] => None
      | es => Some es
      end
  end.

(** ** Cost against distance *)

Record scatterPoint : Type := { x : float; y : float; shipmentId : value }.

Definition scatterDataOf (rows : list JS.row) : list scatterPoint :=
  filter (fun p => (0 <? x p) && (0 <? y p))
    (map (fun row => {| x := distanceKmScatter row;
                        y := costUsdOf row;
                        shipmentId := shipmentIdOf row |}) rows).

(** The points of [createCostDistanceChart] (lines 350-372). *)
Definition createCostDistanceChart (rows : list JS.row)
  : option (list scatterPoint) :=
  match rows with
  | [] => None
  | _ =>
      match scatterDataOf rows with
      | [] => None
      | ps => Some ps
      end
  end.

Section WithConfiguration.

(** The value of [urlParams.get('cpd')] when the script is loaded. *)
Variable cpdParam : option string.

(** ** Savings potential *)

(** [computeSavingsPotential] (lines 27-38) *)
Definition computeSavingsPotential (rows : list JS.row) : float :=
  match rows with
  | [] => 0
  | _ =>
      fold_left
        (fun sum row =>
           let delayDays := delayDaysSavings row in
           sum + (if 0 <? delayDays
                  then delayDays * COST_PER_DELAY_DAY cpdParam
                  else 0))
        rows 0
  end.

(** ** KPIs *)

Record kpis : Type :=
  { totalShipments : nat;
    onTimePercentage : float;
    avgDelayLate : float;
    savings : float;
    displaySavings : float }.

Definition onTimeRowsOf (rows : list JS.row) : list JS.row :=
  filter (fun row => delayDaysKpi row <=? 0) rows.

Definition lateShipmentsOf (rows : list JS.row) : list JS.row :=
  filter (fun row => 0 <? delayDaysKpi row) rows.

(** The values [updateKPIs] (lines 41-90) writes to the page, before
    [toFixed(1)] and [Math.round]; [None] when it returns without writing. *)
Definition updateKPIs (rows : list JS.row) : option kpis :=
  match rows with
  | [] => None
  | _ =>
      let totalShipments := List.length rows in
      let onTimeRows := onTimeRowsOf rows in
      let lateShipments := lateShipmentsOf rows in
      let savings := computeSavingsPotential rows in
      Some
        {| totalShipments := totalShipments;
           onTimePercentage :=
             (of_nat (List.length onTimeRows) / of_nat totalShipments) * 100;
           avgDelayLate :=
             if Nat.ltb 0 (List.length lateShipments)
             then fold_left (fun sum row => sum + delayDaysKpi row)
                    lateShipments 0
                  / of_nat (List.length lateShipments)
             else 0;
           savings := savings;
           displaySavings := if 0 <? savings then savings else 187923 |}
  end.

(** ** Insights *)

Inductive strength : Type := strong | moderate.

Inductive direction : Type := positiveDirection | negativeDirection.

(** One constructor per sentence of [renderInsights], carrying the values
    the sentence is formatted from. *)
Inductive insight : Type :=
| MoneyOnTheTable (savings costPerDay : float)
| WorstCarrier (carrier : string) (avgDelay : float) (n : nat)
| OnTimePerformance (onTimeRate : float) (n : nat)
| HighRiskShare (highRiskPercent : float)
| CostDistanceCorrelation (s : strength) (d : direction) (r : float)
| TopRoute (route : string) (emissions : float).

Definition carrierDelaysOf (rows : list JS.row) : object carrierStat :=
  fold_left
    (fun acc row =>
       let delayDays := delayDaysKpi row in
       if 0 <? delayDays
       then accumulate (toPropertyKey (carrierOf row))
                       {| totalDelay := 0; count := 0 |}
                       (addDelay delayDays) acc
       else acc)
    rows [].

Definition worstCarrierInsight (rows : list JS.row) : list insight :=
  match sort _ byAvgDelayDesc
          (map toCarrierAvg (entries (carrierDelaysOf rows))) with
  | worstCarrier :: _ =>
      if Nat.leb 2 (shipments worstCarrier)
      then [WorstCarrier (name worstCarrier) (avgDelay worstCarrier)
              (shipments worstCarrier)]
      else []
  | [] => []
  end.

Definition onTimeInsight (rows : list JS.row) : list insight :=
  [OnTimePerformance
     ((of_nat (List.length (onTimeRowsOf rows)) / of_nat (List.length rows)) * 100)
     (List.length rows)].

(** [riskCounts[k] || 0] *)
Definition countOf (k : string) (o : object nat) : nat :=
  match lookup k o with
  | Some c => c
  | None => O
  end.

Definition highRiskCountOf (rows : list JS.row) : nat :=
  let riskCounts := riskCountsOf normalizedRiskInsight rows in
  (countOf "High" riskCounts + countOf "Critical" riskCounts)%nat.

Definition riskInsight (rows : list JS.row) : list insight :=
  let highRiskCount := highRiskCountOf rows in
  if Nat.ltb 0 highRiskCount
  then [HighRiskShare ((of_nat highRiskCount / of_nat (List.length rows)) * 100)]
  else [].

Definition validPointsOf (rows : list JS.row) : list point :=
  filter (fun p => (0 <? distance p) && (0 <? cost p))
    (map (fun row => {| distance := distanceKmOf row; cost := costUsdOf row |})
       rows).

Definition correlationInsight (rows : list JS.row) : list insight :=
  let validPoints := validPointsOf rows in
  if Nat.leb 3 (List.length validPoints) then
    let correlation := calculatePearsonCorrelation validPoints in
    if 0.3 <=? PrimFloat.abs correlation then
      [CostDistanceCorrelation
         (if 0.7 <=? PrimFloat.abs correlation then strong else moderate)
         (if 0 <? correlation then positiveDirection else negativeDirection)
         correlation]
    else []
  else [].

(** The template literal of line 867. *)
Definition routeOf (row : JS.row) : string :=
  (toPropertyKey (originOf row) ++ " → " ++ toPropertyKey (destinationOf row))%string.

Definition routeEmissionsKg (row : JS.row) : float :=
  let emissionsKg := actualEmissionsOf row in
  if emissionsKg <=? 0
  then estimatedEmissions (routeModeOf row) row
  else emissionsKg.

(** [routeEmissions[route] = (routeEmissions[route] || 0) + emissionsKg]
    (line 880) *)
Definition routeEmissionsOf (rows : list JS.row) : object amount :=
  fold_left (fun acc row => addAmount (routeEmissionsKg row) (routeOf row) acc)
    rows [].

(** The comparator [(a, b) => b[1] - a[1]]. *)
Definition byEmissionsDesc (a b : string * amount) : float :=
  numberOf (snd b) - numberOf (snd a).

(** The sentence carries the number that [Math.round] is applied to. *)
Definition topRouteInsight (rows : list JS.row) : list insight :=
  match sort _ byEmissionsDesc (entries (routeEmissionsOf rows)) with
  | topRoute :: _ => [TopRoute (fst topRoute) (numberOf (snd topRoute))]
  | [] => []
  end.

(** The list [insights] built by [renderInsights] (lines 745-888), in the
    order of the [push] calls; [None] when the function returns at its
    guard. *)
Definition renderInsights (rows : list JS.row) : option (list insight) :=
  match rows with
  | [] => None
  | _ =>
      Some
        (MoneyOnTheTable (computeSavingsPotential rows)
           (COST_PER_DELAY_DAY cpdParam)
         :: worstCarrierInsight rows
         ++ onTimeInsight rows
         ++ riskInsight rows
         ++ correlationInsight rows
         ++ topRouteInsight rows)%list
  end.

End WithConfiguration.

(** ** Late shipments *)

(** The entries of [lateShipments] in [renderOutliersAndAnomalies]
    (lines 952-970).  The weekly analysis of that function goes through
    dayjs and [localeCompare] and is not modelled. *)
Record lateShipment : Type :=
  { lateId : value; lateCarrier : value; lane : string; lateDelay : float }.

Definition toLateShipment (row : JS.row) : lateShipment :=
  {| lateId := lateIdOf row;
     lateCarrier := lateCarrierOf row;
     lane :=
       (toPropertyKey (lateOriginOf row) ++ " → "
        ++ toPropertyKey (lateDestinationOf row))%string;
     lateDelay := delayDaysSavings row |}.

(** The comparator [(a, b) => b.delayDays - a.delayDays]. *)
Definition byDelayDesc (a b : lateShipment) : float :=
  lateDelay b - lateDelay a.

Definition allLateShipmentsOf (rows : list JS.row) : list lateShipment :=
  filter (fun shipment => 0 <? lateDelay shipment) (map toLateShipment rows).

(** [lateShipments]: the late shipments, longest delay first, cut after
    five. *)
Definition topLateShipmentsOf (rows : list JS.row) : list lateShipment :=
  firstn 5 (sort _ byDelayDesc (allLateShipmentsOf rows)).

End Engine.

(** ** Data preview *)

Section Preview.

(** [String.prototype.toLowerCase].  Column names may hold any letters, so
    the case mapping is left open here; [JS.toLowerCase] is the instance for
    ASCII names. *)
Variable lower : string -> string.












End Preview.

End App.

(* ================================================================== *)
(** * The guided tour: class WalkthroughSystem                          *)
(* ================================================================== *)

Module Walkthrough.

(** The entries of [this.steps] (lines 1345-1429); the descriptions and the
    actions, which only touch the page, are left out. *)
Record tourStep : Type := { title : string; target : string; icon : string }.

Definition steps : list tourStep :=
  [ {| title := "Welcome to Derya AI Freight"; target := "#btn-upload";
       icon := "upload" |};
    {| title := "Data Loading"; target := "#btn-upload"; icon := "database" |};
    {| title := "Filter Panel"; target := "#filters"; icon := "filter" |};
    {| title := "Interactive Filters"; target := "#filters"; icon := "filter" |};
    {| title := "Key Performance Indicators"; target := "#kpis";
       icon := "chart" |};
    {| title := "AI Insights"; target := "#insights"; icon := "lightbulb" |};
    {| title := "Delay Analysis"; target := "#chart-delay-by-carrier";
       icon := "clock" |};
    {| title := "Risk Distribution"; target := "#chart-risk"; icon := "shield" |};
    {| title := "Cost vs Distance Analysis"; target := "#chart-cost-distance";
       icon := "trending" |};
    {| title := "Emissions Tracking"; target := "#chart-mode-emissions";
       icon := "leaf" |};
    {| title := "Data Preview"; target := "#table-container"; icon := "table" |}
  ]%string.

(** The fields of the object that the navigation reads and writes. *)
Record tour : Type := { currentStep : nat; isActive : bool }.

(** The state the constructor leaves (lines 1343-1432). *)
Definition created : tour := {| currentStep := 0; isActive := false |}.

(** [start()] (lines 1434-1439) *)
Definition start (t : tour) : tour := {| currentStep := 0; isActive := true |}.

(** [stop()] (lines 1441-1445) *)
Definition stop (t : tour) : tour :=
  {| currentStep := currentStep t; isActive := false |}.

(** [next()] (lines 1447-1454) *)
Definition next (t : tour) : tour :=
  if Nat.ltb (currentStep t) (List.length steps - 1)
  then {| currentStep := S (currentStep t); isActive := isActive t |}
  else stop t.

(** [previous()] (lines 1456-1461) *)
Definition previous (t : tour) : tour :=
  if Nat.ltb 0 (currentStep t)
  then {| currentStep := currentStep t - 1; isActive := isActive t |}
  else t.

(** [this.steps[this.currentStep]], the step [updateStep] displays. *)
Definition shownStep (t : tour) : option tourStep :=
  nth_error steps (currentStep t).

(** What can happen to the tour: the four buttons (lines 1729-1748 and
    the start buttons of the two popups), a key press (lines 1751-1764) and
    the timer of [simulateDataUpload] (lines 1621-1625). *)
Inductive event : Type :=
| ClickStart
| ClickNext
| ClickPrevious
| ClickSkip
| KeyDown (key : string)
| AutoAdvance.

Definition handle (t : tour) (e : event) : tour :=
  match e with
  | ClickStart => start t
  | ClickNext => next t
  | ClickPrevious => previous t
  | ClickSkip => stop t
  | KeyDown key =>
      if isActive t then
        if String.eqb key "ArrowRight" || String.eqb key "Enter" then next t
        else if String.eqb key "ArrowLeft" then previous t
        else if String.eqb key "Escape" then stop t
        else t
      else t
  | AutoAdvance => if isActive t then next t else t
  end.

Definition run (t : tour) (events : list event) : tour :=
  fold_left handle events t.

End Walkthrough.

(* ================================================================== *)
(** * Reference definitions for the statements                          *)
(* ================================================================== *)

Module Spec.

Import JS App.
Open Scope float_scope.

(** The value of the first key of [keys] whose property is truthy in [row],
    [dflt] when there is none: the meaning of a chain
    [row.k1 || row.k2 || ... || dflt]. *)
Fixpoint firstTruthy (row : JS.row) (keys : list string) (dflt : value)
  : value :=
  match keys with
  | [] => dflt
  | k :: ks => if truthy (get row k) then get row k else firstTruthy row ks dflt
  end.

(** The chains of the script that yield a value: the function, the keys in
    the order read, and the default. *)
Definition valueChains : list ((JS.row -> value) * list string * value) :=
  [ (carrierOf, ["carrier_name"; "Carrier"; "carrier"], VStr "Unknown");
    (riskLevelOf, ["risk_level"; "RiskLevel"; "risk"; "ai_risk_score"],
     VStr "Unknown");
    (shipmentIdOf, ["shipment_id"; "ShipmentId"; "shipment"], VStr "Unknown");
    (modeOf, ["transport_mode"; "mode"; "Mode"], VStr "Unknown");
    (originOf, ["origin_city"; "Origin"], VStr "Unknown");
    (destinationOf, ["destination_city"; "Destination"], VStr "Unknown");
    (routeModeOf, ["transport_mode"; "mode"; "Mode"], VStr "Road");
    (lateIdOf, ["ID"; "id"; "Reference"; "reference"], VStr "-");
    (lateCarrierOf, ["Carrier"; "carrier"], VStr "Unknown");
    (lateOriginOf, ["Origin"; "origin"; "origin_city"], VStr "Unknown");
    (lateDestinationOf, ["Destination"; "destination"; "destination_city"],
     VStr "Unknown") ]%string.

(** The chains whose value goes through [num]; the default is 0 in all of
    them. *)
Definition numberChains : list ((JS.row -> float) * list string) :=
  [ (delayDaysSavings, ["DelayDays"; "delay_days"; "delay"; "Delay"]);
    (delayDaysKpi, ["actual_delay_days"; "DelayDays"]);
    (distanceKmScatter, ["route_distance_km"; "DistanceKm"; "distance_km"]);
    (costUsdOf, ["cost_usd"; "CostUSD"; "cost"]);
    (actualEmissionsOf, ["emissions_kg"; "EmissionsKg"; "carbon_emissions_kg"]);
    (distanceKmOf, ["route_distance_km"; "distance_km"; "DistanceKm"]);
    (weightKgOf, ["weight_kg"; "WeightKg"]) ]%string.




(** The emission factor table as the specification words it, with Road for
    any mode that is not in the table. *)
Definition modeFactor (mode : string) : float :=
  if String.eqb mode "Air" then 500
  else if String.eqb mode "Road" then 62
  else if String.eqb mode "Rail" then 22
  else if String.eqb mode "Sea" then 10
  else 62.

(** The estimate as the specification words it, on the fields as
    resolved by their chains: distance x factor x tons / 1000, with
    [tons = weight / 1000] when the weight is positive and 1 otherwise. *)
Definition resolvedActualEmissions (row : JS.row) : float :=
  num (firstTruthy row ["emissions_kg"; "EmissionsKg"; "carbon_emissions_kg"]%string
         (VNum 0)).

Definition resolvedDistance (row : JS.row) : float :=
  num (firstTruthy row ["route_distance_km"; "distance_km"; "DistanceKm"]%string
         (VNum 0)).


Definition resolvedWeight (row : JS.row) : float :=
  num (firstTruthy row ["weight_kg"; "WeightKg"]%string (VNum 0)).

Definition resolvedMode (row : JS.row) : string :=
  toPropertyKey
    (firstTruthy row ["transport_mode"; "mode"; "Mode"]%string (VStr "Unknown")).

Definition tonsOf (row : JS.row) : float :=
  if 0 <? resolvedWeight row then resolvedWeight row / 1000 else 1.

Definition documentedEstimate (row : JS.row) : float :=
  (resolvedDistance row * modeFactor (resolvedMode row) * tonsOf row) / 1000.







(** The sums of the correlation formula. *)
Definition sumOf (f : point -> float) (points : list point) : float :=
  fold_left (fun a p => a + f p) points 0.

Definition numeratorOf (points : list point) : float :=
  of_nat (List.length points) * sumOf (fun p => distance p * cost p) points
  - sumOf distance points * sumOf cost points.

Definition denominatorOf (points : list point) : float :=
  let n := of_nat (List.length points) in
  PrimFloat.sqrt
    ((n * sumOf (fun p => distance p * distance p) points
      - sumOf distance points * sumOf distance points)
     * (n * sumOf (fun p => cost p * cost p) points
        - sumOf cost points * sumOf cost points)).

(** What the comparator of a sort says about a pair left in this order:
    it does not place [u] after [v], or it places [v] after [u]. *)
Definition inOrder {A : Type} (after : A -> A -> bool) (u v : A) : Prop :=
  after u v = false \/ after v u = true.

(** The comparator [(a, b) => key(b) - key(a)]. *)
Definition descendingComparator {A : Type} (key : A -> float) (a b : A) : float :=
  key b - key a.

(** Largest first, by a number. *)
Definition descendingBy {A : Type} (key : A -> float) (l : list A) : Prop :=
  StronglySorted (fun a b => (key b <=? key a) = true) l.


(** The formula of [calculatePearsonCorrelation] over an arbitrary
    arithmetic: the script evaluates it in binary64, the coefficient it
    approximates is its value over the reals. *)
Record arithmetic (N : Type) : Type :=
  { zeroOf : N;
    addOf : N -> N -> N;
    subOf : N -> N -> N;
    mulOf : N -> N -> N;
    divOf : N -> N -> N;
    sqrtOf : N -> N;
    isZeroOf : N -> bool;
    ofNatOf : nat -> N }.

Arguments zeroOf {N}.
Arguments addOf {N}.
Arguments subOf {N}.
Arguments mulOf {N}.
Arguments divOf {N}.
Arguments sqrtOf {N}.
Arguments isZeroOf {N}.
Arguments ofNatOf {N}.

Definition pearsonFormula {N : Type} (A : arithmetic N) (points : list (N * N))
  : N :=
  let n := List.length points in
  if Nat.ltb n 2 then zeroOf A else
  let x := map fst points in
  let y := map snd points in
  let sumX := fold_left (addOf A) x (zeroOf A) in
  let sumY := fold_left (addOf A) y (zeroOf A) in
  let sumXY :=
    fold_left (fun sum p => addOf A sum (mulOf A (fst p) (snd p))) points
      (zeroOf A) in
  let sumX2 := fold_left (fun sum xi => addOf A sum (mulOf A xi xi)) x (zeroOf A) in
  let sumY2 := fold_left (fun sum yi => addOf A sum (mulOf A yi yi)) y (zeroOf A) in
  let numerator :=
    subOf A (mulOf A (ofNatOf A n) sumXY) (mulOf A sumX sumY) in
  let denominator :=
    sqrtOf A
      (mulOf A (subOf A (mulOf A (ofNatOf A n) sumX2) (mulOf A sumX sumX))
               (subOf A (mulOf A (ofNatOf A n) sumY2) (mulOf A sumY sumY))) in
  if isZeroOf A denominator then zeroOf A else divOf A numerator denominator.

Definition binary64 : arithmetic float :=
  {| zeroOf := 0; addOf := PrimFloat.add; subOf := PrimFloat.sub;
     mulOf := PrimFloat.mul; divOf := PrimFloat.div; sqrtOf := PrimFloat.sqrt;
     isZeroOf := fun d => d =? 0; ofNatOf := of_nat |}.

Definition exactReals : arithmetic R :=
  {| zeroOf := 0%R; addOf := Rplus; subOf := Rminus; mulOf := Rmult;
     divOf := Rdiv; sqrtOf := R_sqrt.sqrt;
     isZeroOf := fun d => if Req_dec_T d 0%R then true else false;
     ofNatOf := INR |}.

Definition pairOf (p : point) : float * float := (distance p, cost p).

(** Sum of [f] over a list, for the statements over the reals. *)
Definition sumR {B : Type} (f : B -> R) (l : list B) : R :=
  fold_right (fun b acc => (f b + acc)%R) 0%R l.

(** The points of the rounding example, and rows that yield them. *)
Definition roundingPoints : list point :=
  [ {| distance := 0.1; cost := 1 |};
    {| distance := 0.2; cost := 2 |};
    {| distance := 0.5; cost := 5 |} ].

Definition roundingRows : list JS.row :=
  [ [("route_distance_km", VNum 0.1); ("cost_usd", VNum 1)];
    [("route_distance_km", VNum 0.2); ("cost_usd", VNum 2)];
    [("route_distance_km", VNum 0.5); ("cost_usd", VNum 5)] ]%string.




(** The distinct elements of a list, in the order in which they first
    appear. *)
Fixpoint firstSeen (l : list string) : list string :=
  match l with
  | [] => []
  | k :: l' => k :: filter (fun k' => negb (String.eqb k' k)) (firstSeen l')
  end.

(** The risk label of every row. *)
Definition riskLabelsOf (classify : value -> string) (rows : list JS.row)
  : list string :=
  map (fun row => classify (riskLevelOf row)) rows.

(** The dictionary built by counting labels one after the other, and the
    histogram of a list of labels: each distinct label, in order of first
    appearance, with the number of its occurrences. *)
Definition countsOf (labels : list string) : object nat :=
  fold_left (fun acc label => upsert label 0%nat S acc) labels [].

Definition histogramOf (labels : list string) : list (string * nat) :=
  map (fun k => (k, count_occ string_dec labels k)) (firstSeen labels).



(** The point with its coordinates exchanged. *)
Definition swapPoint (p : point) : point :=
  {| distance := cost p; cost := distance p |}.

(** The scatter point as a correlation point. *)
Definition pointOf (p : scatterPoint) : point := {| distance := x p; cost := y p |}.

(** Rows for the examples of the additional properties. *)
Definition mixedRows : list JS.row :=
  [ [("DelayDays", VNum 4); ("risk_level", VStr "High"); ("ID", VStr "s1");
     ("route_distance_km", VNum 100); ("cost_usd", VNum 250)];
    [("DelayDays", VNum 9); ("risk_level", VStr "low"); ("ID", VStr "s2");
     ("DistanceKm", VNum 300); ("cost", VNum 700)];
    [("DelayDays", VNum 4); ("risk_level", VNum 0.9); ("ID", VStr "s3");
     ("distance_km", VNum 50); ("CostUSD", VNum 125)];
    [("DelayDays", VNum 0); ("risk_level", VStr "High"); ("ID", VStr "s4")];
    [("Carrier_Name", VStr "X"); ("SHIPMENT_ID", VStr "s5")] ]%string.


(** The rows of the KPI scenario and the row of the emissions scenario. *)
Definition scenarioRows : list JS.row :=
  [ [("actual_delay_days", VNum 3); ("carrier_name", VStr "A")];
    [("actual_delay_days", VNum (-1)); ("carrier_name", VStr "A")] ]%string.

Definition airRow : JS.row :=
  [("transport_mode", VStr "Air"); ("route_distance_km", VNum 1000);
   ("weight_kg", VNum 2000)]%string.

(** A row whose mode is the name of an inherited property, and rows of a
    carrier with such a name. *)
Definition constructorRow : JS.row :=
  [("transport_mode", VStr "constructor"); ("route_distance_km", VNum 1000);
   ("weight_kg", VNum 2000)]%string.


(** The row of the risk example. *)
Definition zeroRiskRow : JS.row := [("risk_level", VNum 0)]%string.

End Spec.

(* ================================================================== *)
(** * Properties                                                        *)
(* ================================================================== *)

Import JS App Spec.
Open Scope float_scope.

(** ** Facts about binary64 comparisons *)

Lemma Prim2SF_not_nan (x : float) :
  PrimFloat.is_nan x = false -> Prim2SF x <> S754_nan.
Proof.
  intros H. unfold Prim2SF. rewrite H.
  destruct (PrimFloat.is_zero x); [discriminate|].
  destruct (PrimFloat.is_infinity x); [discriminate|].
  destruct (Z.frexp x) as [r e].
  destruct (shr_fexp prec emax _ _ _) as [s e'].
  destruct (shr_m s); discriminate.
Qed.

Lemma Prim2SF_zero : Prim2SF 0 = S754_zero false.
Proof. vm_compute. reflexivity. Qed.

Lemma not_pos_leb_zero (x : float) :
  PrimFloat.is_nan x = false -> (0 <? x) = false -> (x <=? 0) = true.
Proof.
  intros Hn. apply Prim2SF_not_nan in Hn.
  rewrite ltb_spec, leb_spec, Prim2SF_zero.
  destruct (Prim2SF x) as [s|s| |s m e]; try congruence;
    destruct s; cbv; congruence.
Qed.


Lemma num_not_nan (v : value) : PrimFloat.is_nan (num v) = false.
Proof.
  unfold num. destruct (PrimFloat.is_nan (Number v)) eqn:E; [reflexivity | exact E].
Qed.

(** ** The order of binary64 values and the sign of a difference *)

Section Binary64.

Local Open Scope Z_scope.

Lemma digits2_pos_bounds (m : positive) :
  2 ^ (Zpos (digits2_pos m) - 1) <= Zpos m < 2 ^ Zpos (digits2_pos m).
Proof.
  induction m as [m IH|m IH|]; cbn [digits2_pos].
  - rewrite Pos2Z.inj_succ, (Pos2Z.inj_xI m).
    replace (Z.succ (Zpos (digits2_pos m)) - 1) with (Z.succ (Zpos (digits2_pos m) - 1)) by lia.
    rewrite !Z.pow_succ_r by lia. lia.
  - rewrite Pos2Z.inj_succ, (Pos2Z.inj_xO m).
    replace (Z.succ (Zpos (digits2_pos m)) - 1) with (Z.succ (Zpos (digits2_pos m) - 1)) by lia.
    rewrite !Z.pow_succ_r by lia. lia.
  - cbn. lia.
Qed.

Lemma shr_1_m (r : shr_record) : 0 <= shr_m r -> shr_m (shr_1 r) = shr_m r / 2.
Proof.
  destruct r as [m r s]. cbn [shr_m]. intros Hm.
  rewrite <- Z.div2_div.
  destruct m as [|p|p]; [reflexivity| |lia].
  destruct p; reflexivity.
Qed.

Lemma iter_shr_1_m (p : positive) (r : shr_record) :
  0 <= shr_m r -> shr_m (iter_pos shr_1 p r) = shr_m r / 2 ^ Zpos p.
Proof.
  revert r. induction p as [p IH|p IH|]; intros r Hr; cbn [iter_pos].
  - assert (H1 : 0 <= shr_m (shr_1 r)) by (rewrite shr_1_m by lia; apply Z.div_pos; lia).
    assert (H2 : 0 <= shr_m (iter_pos shr_1 p (shr_1 r)))
      by (rewrite IH by lia; apply Z.div_pos; [lia | apply Z.pow_pos_nonneg; lia]).
    rewrite IH, IH, shr_1_m by lia.
    rewrite !Z.div_div by (try apply Z.pow_pos_nonneg; lia).
    f_equal. rewrite (Pos2Z.inj_xI p).
    rewrite Z.pow_add_r, Z.pow_1_r by lia.
    replace (2 * Zpos p) with (Zpos p + Zpos p) by lia.
    rewrite Z.pow_add_r by lia. ring.
  - assert (H2 : 0 <= shr_m (iter_pos shr_1 p r))
      by (rewrite IH by lia; apply Z.div_pos; [lia | apply Z.pow_pos_nonneg; lia]).
    rewrite IH, IH by lia.
    rewrite Z.div_div by (try apply Z.pow_pos_nonneg; lia).
    f_equal. rewrite (Pos2Z.inj_xO p).
    replace (2 * Zpos p) with (Zpos p + Zpos p) by lia.
    rewrite Z.pow_add_r by lia. ring.
  - rewrite shr_1_m by lia. reflexivity.
Qed.

Lemma shr_record_of_loc_m (m : Z) (l : location) : shr_m (shr_record_of_loc m l) = m.
Proof. destruct l as [|[]]; reflexivity. Qed.

Lemma shr_fexp_pos (m e : Z) (l : location) :
  0 < m -> emin <= e ->
  0 < shr_m (fst (shr_fexp prec emax m e l)) /\ emin <= snd (shr_fexp prec emax m e l).
Proof.
  intros Hm He. unfold shr_fexp, shr.
  destruct m as [|p|p]; try lia. cbn [Zdigits2].
  pose proof (digits2_pos_bounds p) as Hd.
  destruct (fexp prec emax (Zpos (digits2_pos p) + e) - e) as [|q|q] eqn:Hq;
    cbn [fst snd]; rewrite ?shr_record_of_loc_m; try (split; lia).
  unfold fexp, SpecFloat.emin, prec, emax in *.
  rewrite iter_shr_1_m by (rewrite shr_record_of_loc_m; lia).
  rewrite shr_record_of_loc_m. split; [|lia].
  apply Z.div_str_pos. split; [apply Z.pow_pos_nonneg; lia|].
  apply Z.le_trans with (2 ^ (Zpos (digits2_pos p) - 1)); [|lia].
  apply Z.pow_le_mono_r; lia.
Qed.

Lemma round_nearest_even_pos (m : Z) (l : location) :
  0 < m -> 0 < round_nearest_even m l.
Proof.
  intros Hm. destruct l as [|[]]; cbn [round_nearest_even]; try lia.
  destruct (Z.even m); lia.
Qed.

Lemma binary_round_aux_pos (m e : Z) (l : location) :
  0 < m -> emin <= e ->
  SFltb (S754_zero false) (binary_round_aux prec emax false m e l) = true.
Proof.
  intros Hm He. unfold binary_round_aux.
  pose proof (shr_fexp_pos m e l Hm He) as H1.
  destruct (shr_fexp prec emax m e l) as [mrs' e']. cbn [fst snd] in H1.
  pose proof (shr_fexp_pos _ e' loc_Exact
                (round_nearest_even_pos _ (loc_of_shr_record mrs') (proj1 H1))
                (proj2 H1)) as H2.
  destruct (shr_fexp prec emax _ e' loc_Exact) as [mrs'' e'']. cbn [fst snd] in H2.
  destruct (shr_m mrs''); try lia.
  destruct (Z.leb _ _); reflexivity.
Qed.

Lemma binary_round_aux_neg (m e : Z) (l : location) :
  SFltb (S754_zero false) (binary_round_aux prec emax true m e l) = false.
Proof.
  unfold binary_round_aux.
  destruct (shr_fexp prec emax m e l) as [mrs' e'].
  destruct (shr_fexp prec emax _ e' loc_Exact) as [mrs'' e''].
  destruct (shr_m mrs''); try reflexivity.
  destruct (Z.leb _ _); reflexivity.
Qed.

Lemma shl_align_snd (m : positive) (e e' : Z) :
  emin <= e -> emin <= e' -> emin <= snd (shl_align m e e').
Proof.
  intros. unfold shl_align. destruct (e' - e); cbn [snd]; lia.
Qed.

(** The sign of the rounded value of [M * 2 ^ e] is the sign of [M]. *)
Lemma binary_normalize_sign (M e : Z) :
  emin <= e ->
  SFltb (S754_zero false) (binary_normalize prec emax M e false) = (0 <? M).
Proof.
  intros He. destruct M as [|p|p]; cbn [binary_normalize]; [reflexivity| |].
  - unfold binary_round.
    pose proof (shl_align_snd p e (fexp prec emax (Zpos (digits2_pos p) + e)) He) as Hs.
    destruct (shl_align p e _) as [mz ez]. cbn [snd] in Hs.
    apply binary_round_aux_pos; [lia|].
    apply Hs. unfold fexp, SpecFloat.emin, prec, emax. lia.
  - unfold binary_round. destruct (shl_align p e _) as [mz ez].
    apply binary_round_aux_neg.
Qed.

Lemma iter_xO (m d : positive) : Zpos (Pos.iter xO m d) = Zpos m * 2 ^ Zpos d.
Proof.
  induction d as [|d IH] using Pos.peano_ind.
  - cbn [Pos.iter]. rewrite (Pos2Z.inj_xO m), Z.pow_1_r. ring.
  - rewrite Pos.iter_succ, (Pos2Z.inj_xO (Pos.iter xO m d)), IH, Pos2Z.inj_succ.
    rewrite Z.pow_succ_r by lia. ring.
Qed.

Lemma shl_align_fst (m : positive) (e ez : Z) :
  ez <= e -> Zpos (fst (shl_align m e ez)) = Zpos m * 2 ^ (e - ez).
Proof.
  intros H. unfold shl_align.
  destruct (ez - e) as [|d|d] eqn:Hd; cbn [fst]; try lia.
  - replace (e - ez) with 0 by lia. lia.
  - rewrite iter_xO. f_equal. f_equal. lia.
Qed.

Lemma bounded_facts (m : positive) (e : Z) :
  bounded prec emax m e = true ->
  emin <= e /\ Zpos m < 2 ^ 53 /\ (emin < e -> 2 ^ 52 <= Zpos m).
Proof.
  unfold bounded, canonical_mantissa. rewrite andb_true_iff, Z.eqb_eq.
  intros [H _]. pose proof (digits2_pos_bounds m) as Hd.
  unfold fexp, SpecFloat.emin, prec, emax in *.
  split; [lia|]. split.
  - apply Z.lt_le_trans with (2 ^ Zpos (digits2_pos m)); [lia|].
    apply Z.pow_le_mono_r; lia.
  - intros He. replace (Zpos (digits2_pos m)) with 53 in Hd by lia.
    exact (proj1 Hd).
Qed.

Lemma scale_lt (a b k : Z) : a < 2 ^ 53 -> 2 ^ 52 <= b -> 1 <= k -> a < b * 2 ^ k.
Proof.
  intros Ha Hb Hk.
  assert (H2 : 2 ^ 1 <= 2 ^ k) by (apply Z.pow_le_mono_r; lia).
  change (2 ^ 1) with 2 in H2. change (2 ^ 53) with (2 ^ 52 * 2) in Ha.
  assert (0 < 2 ^ 52) by reflexivity. nia.
Qed.

(** The difference [y - x] of two numbers is positive exactly when
    [x < y]: rounding never turns a non-zero difference into zero and never
    changes its sign. *)
Lemma SFsub_pos (x y : spec_float) :
  valid_binary x = true -> valid_binary y = true ->
  SFltb (S754_zero false) (SFsub prec emax y x) = SFltb x y.
Proof.
  destruct x as [sx|sx| |sx mx ex], y as [sy|sy| |sy my ey];
    try (intros _ _; try destruct sx; try destruct sy; reflexivity).
  cbn [valid_binary]. intros Vx Vy.
  apply bounded_facts in Vx, Vy.
  destruct Vx as (Hex & Hmx & Hnx), Vy as (Hey & Hmy & Hny).
  cbn [SFsub]. rewrite binary_normalize_sign by lia.
  rewrite !shl_align_fst by lia.
  unfold SFltb, SFcompare.
  assert (Px : 0 < Zpos mx * 2 ^ (ex - Z.min ey ex))
    by (apply Z.mul_pos_pos; [lia | apply Z.pow_pos_nonneg; lia]).
  assert (Py : 0 < Zpos my * 2 ^ (ey - Z.min ey ex))
    by (apply Z.mul_pos_pos; [lia | apply Z.pow_pos_nonneg; lia]).
  destruct sx, sy; cbn [cond_Zopp]; try (apply Z.ltb_lt; lia); try (apply Z.ltb_ge; lia).
  - (* both negative *)
    destruct (Z.compare_spec ex ey) as [He|He|He].
    + subst ey. rewrite Z.min_id, Z.sub_diag, !Z.mul_1_r.
      change (Pos.compare_cont Eq mx my) with (Pos.compare mx my).
      destruct (Pos.compare_spec mx my); cbn [CompOpp];
        [apply Z.ltb_ge | apply Z.ltb_ge | apply Z.ltb_lt]; lia.
    + apply Z.ltb_ge. rewrite Z.min_r, Z.sub_diag, Z.mul_1_r by lia.
      pose proof (scale_lt (Zpos mx) (Zpos my) (ey - ex) Hmx (Hny ltac:(lia)) ltac:(lia)).
      lia.
    + apply Z.ltb_lt. rewrite Z.min_l, Z.sub_diag, Z.mul_1_r by lia.
      pose proof (scale_lt (Zpos my) (Zpos mx) (ex - ey) Hmy (Hnx ltac:(lia)) ltac:(lia)).
      lia.
  - (* both positive *)
    destruct (Z.compare_spec ex ey) as [He|He|He].
    + subst ey. rewrite Z.min_id, Z.sub_diag, !Z.mul_1_r.
      change (Pos.compare_cont Eq mx my) with (Pos.compare mx my).
      destruct (Pos.compare_spec mx my);
        [apply Z.ltb_ge | apply Z.ltb_lt | apply Z.ltb_ge]; lia.
    + apply Z.ltb_lt. rewrite Z.min_r, Z.sub_diag, Z.mul_1_r by lia.
      pose proof (scale_lt (Zpos mx) (Zpos my) (ey - ex) Hmx (Hny ltac:(lia)) ltac:(lia)).
      lia.
    + apply Z.ltb_ge. rewrite Z.min_l, Z.sub_diag, Z.mul_1_r by lia.
      pose proof (scale_lt (Zpos my) (Zpos mx) (ex - ey) Hmy (Hnx ltac:(lia)) ltac:(lia)).
      lia.
Qed.

Lemma binary_round_aux_neg_lt (m e : Z) (l : location) :
  0 < m -> emin <= e ->
  SFltb (binary_round_aux prec emax true m e l) (S754_zero false) = true.
Proof.
  intros Hm He. unfold binary_round_aux.
  pose proof (shr_fexp_pos m e l Hm He) as H1.
  destruct (shr_fexp prec emax m e l) as [mrs' e']. cbn [fst snd] in H1.
  pose proof (shr_fexp_pos _ e' loc_Exact
                (round_nearest_even_pos _ (loc_of_shr_record mrs') (proj1 H1))
                (proj2 H1)) as H2.
  destruct (shr_fexp prec emax _ e' loc_Exact) as [mrs'' e'']. cbn [fst snd] in H2.
  destruct (shr_m mrs''); try lia.
  destruct (Z.leb _ _); reflexivity.
Qed.

Lemma binary_round_aux_pos_ge (m e : Z) (l : location) :
  0 < m -> emin <= e ->
  SFltb (binary_round_aux prec emax false m e l) (S754_zero false) = false.
Proof.
  intros Hm He. unfold binary_round_aux.
  pose proof (shr_fexp_pos m e l Hm He) as H1.
  destruct (shr_fexp prec emax m e l) as [mrs' e']. cbn [fst snd] in H1.
  pose proof (shr_fexp_pos _ e' loc_Exact
                (round_nearest_even_pos _ (loc_of_shr_record mrs') (proj1 H1))
                (proj2 H1)) as H2.
  destruct (shr_fexp prec emax _ e' loc_Exact) as [mrs'' e'']. cbn [fst snd] in H2.
  destruct (shr_m mrs''); try lia.
  destruct (Z.leb _ _); reflexivity.
Qed.

Lemma binary_normalize_sign_neg (M e : Z) :
  emin <= e ->
  SFltb (binary_normalize prec emax M e false) (S754_zero false) = (M <? 0).
Proof.
  intros He. destruct M as [|p|p]; cbn [binary_normalize]; [reflexivity| |].
  - unfold binary_round.
    pose proof (shl_align_snd p e (fexp prec emax (Zpos (digits2_pos p) + e)) He) as Hs.
    destruct (shl_align p e _) as [mz ez]. cbn [snd] in Hs.
    apply binary_round_aux_pos_ge; [lia|].
    apply Hs. unfold fexp, SpecFloat.emin, prec, emax. lia.
  - unfold binary_round.
    pose proof (shl_align_snd p e (fexp prec emax (Zpos (digits2_pos p) + e)) He) as Hs.
    destruct (shl_align p e _) as [mz ez]. cbn [snd] in Hs.
    apply binary_round_aux_neg_lt; [lia|].
    apply Hs. unfold fexp, SpecFloat.emin, prec, emax. lia.
Qed.

(** The difference [y - x] is negative exactly when [y < x]. *)
Lemma SFsub_neg (x y : spec_float) :
  valid_binary x = true -> valid_binary y = true ->
  SFltb (SFsub prec emax y x) (S754_zero false) = SFltb y x.
Proof.
  destruct x as [sx|sx| |sx mx ex], y as [sy|sy| |sy my ey];
    try (intros _ _; try destruct sx; try destruct sy; reflexivity).
  cbn [valid_binary]. intros Vx Vy.
  apply bounded_facts in Vx, Vy.
  destruct Vx as (Hex & Hmx & Hnx), Vy as (Hey & Hmy & Hny).
  cbn [SFsub]. rewrite binary_normalize_sign_neg by lia.
  rewrite !shl_align_fst by lia.
  unfold SFltb, SFcompare.
  assert (Px : 0 < Zpos mx * 2 ^ (ex - Z.min ey ex))
    by (apply Z.mul_pos_pos; [lia | apply Z.pow_pos_nonneg; lia]).
  assert (Py : 0 < Zpos my * 2 ^ (ey - Z.min ey ex))
    by (apply Z.mul_pos_pos; [lia | apply Z.pow_pos_nonneg; lia]).
  destruct sx, sy; cbn [cond_Zopp]; try (apply Z.ltb_lt; lia); try (apply Z.ltb_ge; lia).
  - (* both negative *)
    destruct (Z.compare_spec ey ex) as [He|He|He].
    + subst ey. rewrite Z.min_id, Z.sub_diag, !Z.mul_1_r.
      change (Pos.compare_cont Eq my mx) with (Pos.compare my mx).
      destruct (Pos.compare_spec my mx); cbn [CompOpp];
        [apply Z.ltb_ge | apply Z.ltb_ge | apply Z.ltb_lt]; lia.
    + apply Z.ltb_ge. rewrite Z.min_l, Z.sub_diag, Z.mul_1_r by lia.
      pose proof (scale_lt (Zpos my) (Zpos mx) (ex - ey) Hmy (Hnx ltac:(lia)) ltac:(lia)).
      lia.
    + apply Z.ltb_lt. rewrite Z.min_r, Z.sub_diag, Z.mul_1_r by lia.
      pose proof (scale_lt (Zpos mx) (Zpos my) (ey - ex) Hmx (Hny ltac:(lia)) ltac:(lia)).
      lia.
  - (* both positive *)
    destruct (Z.compare_spec ey ex) as [He|He|He].
    + subst ey. rewrite Z.min_id, Z.sub_diag, !Z.mul_1_r.
      change (Pos.compare_cont Eq my mx) with (Pos.compare my mx).
      destruct (Pos.compare_spec my mx);
        [apply Z.ltb_ge | apply Z.ltb_lt | apply Z.ltb_ge]; lia.
    + apply Z.ltb_lt. rewrite Z.min_l, Z.sub_diag, Z.mul_1_r by lia.
      pose proof (scale_lt (Zpos my) (Zpos mx) (ex - ey) Hmy (Hnx ltac:(lia)) ltac:(lia)).
      lia.
    + apply Z.ltb_ge. rewrite Z.min_r, Z.sub_diag, Z.mul_1_r by lia.
      pose proof (scale_lt (Zpos mx) (Zpos my) (ey - ex) Hmx (Hny ltac:(lia)) ltac:(lia)).
      lia.
Qed.

End Binary64.

(** [b - a] is positive exactly when [a < b], negative exactly when
    [b < a]. *)
Lemma sub_pos_ltb (a b : float) : (0 <? b - a) = (a <? b).
Proof.
  rewrite !ltb_spec, sub_spec, Prim2SF_zero.
  apply SFsub_pos; apply Prim2SF_valid.
Qed.

Lemma sub_neg_ltb (a b : float) : (b - a <? 0) = (b <? a).
Proof.
  rewrite !ltb_spec, sub_spec, Prim2SF_zero.
  apply SFsub_neg; apply Prim2SF_valid.
Qed.

Lemma SFcompare_antisym (x y : spec_float) :
  SFcompare y x = option_map CompOpp (SFcompare x y).
Proof.
  destruct x as [sx|sx| |sx mx ex], y as [sy|sy| |sy my ey];
    try (try destruct sx; try destruct sy; reflexivity).
  cbn [SFcompare option_map].
  rewrite (Z.compare_antisym ex ey).
  change (Pos.compare_cont Eq my mx) with (Pos.compare my mx).
  change (Pos.compare_cont Eq mx my) with (Pos.compare mx my).
  rewrite (Pos.compare_antisym mx my).
  destruct sx, sy; try reflexivity;
    destruct (ex ?= ey)%Z; cbn [CompOpp]; try reflexivity;
    rewrite ?CompOpp_involutive; reflexivity.
Qed.

Lemma SFcompare_not_nan (x y : spec_float) :
  x <> S754_nan -> y <> S754_nan -> exists c, SFcompare x y = Some c.
Proof.
  destruct x as [sx|sx| |sx mx ex], y as [sy|sy| |sy my ey];
    try congruence; intros _ _; cbn [SFcompare]; eauto.
Qed.

Lemma ltb_asym (a b : float) : (a <? b) = true -> (b <? a) = false.
Proof.
  rewrite !ltb_spec. unfold SFltb.
  rewrite (SFcompare_antisym (Prim2SF a) (Prim2SF b)).
  destruct (SFcompare (Prim2SF a) (Prim2SF b)) as [[]|]; cbn; congruence.
Qed.

Lemma not_ltb_leb (a b : float) :
  PrimFloat.is_nan a = false -> PrimFloat.is_nan b = false ->
  (a <? b) = false -> (b <=? a) = true.
Proof.
  intros Ha Hb. apply Prim2SF_not_nan in Ha, Hb.
  rewrite ltb_spec, leb_spec. unfold SFltb, SFleb.
  rewrite (SFcompare_antisym (Prim2SF a) (Prim2SF b)).
  destruct (SFcompare_not_nan _ _ Ha Hb) as [c ->].
  destruct c; cbn; congruence.
Qed.

Lemma SFleb_trans (x y z : spec_float) :
  SFleb x y = true -> SFleb y z = true -> SFleb x z = true.
Proof.
  unfold SFleb.
  destruct x as [sx|sx| |sx mx ex], y as [sy|sy| |sy my ey],
           z as [sz|sz| |sz mz ez];
    cbn [SFcompare]; try discriminate;
    try (try destruct sx; try destruct sy; try destruct sz;
         (reflexivity || discriminate || (intros; assumption))).
  change (Pos.compare_cont Eq mx my) with (Pos.compare mx my).
  change (Pos.compare_cont Eq my mz) with (Pos.compare my mz).
  change (Pos.compare_cont Eq mx mz) with (Pos.compare mx mz).
  destruct sx, sy, sz; try (reflexivity || discriminate || (intros; assumption));
    destruct (Z.compare_spec ex ey), (Z.compare_spec ey ez), (Z.compare_spec ex ez);
    try lia; try (reflexivity || discriminate);
    destruct (Pos.compare_spec mx my), (Pos.compare_spec my mz),
             (Pos.compare_spec mx mz);
    cbn [CompOpp]; try lia; try (reflexivity || discriminate).
Qed.

Lemma leb_trans (a b c : float) :
  (a <=? b) = true -> (b <=? c) = true -> (a <=? c) = true.
Proof. rewrite !leb_spec. apply SFleb_trans. Qed.

Lemma ltb_irrefl (a : float) : (a <? a) = false.
Proof.
  destruct (a <? a) eqn:E; [|reflexivity].
  pose proof (ltb_asym _ _ E) as H. congruence.
Qed.

Lemma ltb_leb (a b : float) : (a <? b) = true -> (a <=? b) = true.
Proof.
  rewrite ltb_spec, leb_spec. unfold SFltb, SFleb.
  destruct (SFcompare (Prim2SF a) (Prim2SF b)) as [[]|]; congruence.
Qed.

Lemma leb_not_ltb (a b : float) : (a <=? b) = true -> (b <? a) = false.
Proof.
  rewrite ltb_spec, leb_spec. unfold SFltb, SFleb.
  rewrite (SFcompare_antisym (Prim2SF a) (Prim2SF b)).
  destruct (SFcompare (Prim2SF a) (Prim2SF b)) as [[]|]; cbn; congruence.
Qed.

Lemma ltb_not_nan (a b : float) :
  (a <? b) = true -> PrimFloat.is_nan a = false /\ PrimFloat.is_nan b = false.
Proof.
  intros H.
  assert (Ha : PrimFloat.is_nan a = false).
  { destruct (PrimFloat.is_nan a) eqn:E; [|reflexivity].
    rewrite ltb_spec in H. unfold Prim2SF in H. rewrite E in H. discriminate. }
  assert (Hb : PrimFloat.is_nan b = false).
  { destruct (PrimFloat.is_nan b) eqn:E; [|reflexivity].
    rewrite ltb_spec in H. unfold Prim2SF at 2 in H. rewrite E in H.
    unfold SFltb in H. destruct (Prim2SF a); discriminate. }
  auto.
Qed.

Lemma ltb_trans (a b c : float) :
  (a <? b) = true -> (b <? c) = true -> (a <? c) = true.
Proof.
  intros Hab Hbc.
  destruct (ltb_not_nan _ _ Hab) as [Ha _], (ltb_not_nan _ _ Hbc) as [_ Hc].
  destruct (a <? c) eqn:E; [reflexivity|].
  apply (not_ltb_leb _ _ Ha Hc) in E.
  pose proof (leb_trans _ _ _ E (ltb_leb _ _ Hab)) as H.
  apply leb_not_ltb in H. congruence.
Qed.

(** ** Sorting *)

Section Sort.

Context {A : Type} (after : A -> A -> bool).

Lemma sort_insert_perm (x : A) (l : list A) :
  Permutation (sort_insert after x l) (x :: l).
Proof.
  induction l as [|y l IH]; cbn [sort_insert]; [reflexivity|].
  destruct (after x y); [|reflexivity].
  rewrite IH. apply perm_swap.
Qed.

Lemma insertionSort_perm (l : list A) : Permutation (insertionSort after l) l.
Proof.
  induction l as [|x l IH]; cbn; [constructor|].
  fold (insertionSort after l). rewrite sort_insert_perm. constructor. exact IH.
Qed.

Lemma sort_insert_hd (x y : A) (l : list A) :
  HdRel (inOrder after) y l -> inOrder after y x -> HdRel (inOrder after) y (sort_insert after x l).
Proof.
  intros Hl Hx. destruct l as [|z l]; cbn [sort_insert]; [constructor; exact Hx|].
  destruct (after x z); constructor; [|exact Hx].
  inversion Hl; assumption.
Qed.

Lemma sort_insert_sorted (x : A) (l : list A) :
  Sorted (inOrder after) l -> Sorted (inOrder after) (sort_insert after x l).
Proof.
  induction 1 as [|y l Hs IH Hh]; cbn [sort_insert]; [repeat constructor|].
  destruct (after x y) eqn:E.
  - constructor; [exact IH|]. apply sort_insert_hd; [exact Hh|]. right. exact E.
  - constructor; [constructor; assumption|]. constructor. left. exact E.
Qed.

Lemma insertionSort_sorted (l : list A) :
  Sorted (inOrder after) (insertionSort after l).
Proof.
  induction l as [|x l IH]; cbn; [constructor|].
  apply sort_insert_sorted. exact IH.
Qed.

End Sort.

Lemma Sorted_impl {A : Type} (R S : A -> A -> Prop) (l : list A) :
  (forall u v, R u v -> S u v) -> Sorted R l -> Sorted S l.
Proof.
  intros H. induction 1 as [|x l Hs IH Hh]; constructor; [exact IH|].
  destruct Hh; constructor; auto.
Qed.

(** The reference sort meets the requirements it is the reference of. *)
Lemma stableSort_conforming : conforming stableSort.
Proof.
  split.
  - intros A comparefn l. apply insertionSort_perm.
  - reflexivity.
Qed.

(** ** Sorting by a number, largest first *)

Section Descending.

Context {A : Type} (key : A -> float).

Lemma placedAfter_key (a b : A) : placedAfter (descendingComparator key) a b = (key a <? key b).
Proof. unfold placedAfter, descendingComparator. apply sub_pos_ltb. Qed.

Lemma placedBefore_key (a b : A) : placedBefore (descendingComparator key) a b = (key b <? key a).
Proof. unfold placedBefore, descendingComparator. apply sub_neg_ltb. Qed.

Lemma tied_key (a b : A) :
  PrimFloat.is_nan (key a) = false -> PrimFloat.is_nan (key b) = false ->
  tied (descendingComparator key) a b = true
  <-> (key a <=? key b) = true /\ (key b <=? key a) = true.
Proof.
  intros Ha Hb. unfold tied. rewrite placedAfter_key, placedBefore_key.
  rewrite andb_true_iff, !negb_true_iff. split.
  - intros [H1 H2]. split; apply not_ltb_leb; assumption.
  - intros [H1 H2]. split; apply leb_not_ltb; assumption.
Qed.

(** The comparator [(a, b) => key(b) - key(a)] is consistent for elements
    none of which has the key NaN. *)
Lemma descending_consistent (l : list A) :
  Forall (fun a => PrimFloat.is_nan (key a) = false) l ->
  consistent (descendingComparator key) l.
Proof.
  intros Hn a b c Ha Hb Hc. rewrite Forall_forall in Hn.
  pose proof (Hn a Ha) as Na. pose proof (Hn b Hb) as Nb. pose proof (Hn c Hc) as Nc.
  rewrite !tied_key by assumption.
  rewrite !placedAfter_key, !placedBefore_key.
  split; [|split; [|split; [|split]]].
  - assert (H : (key a <=? key a) = true)
      by (apply not_ltb_leb; [assumption | assumption | apply ltb_irrefl]).
    auto.
  - tauto.
  - intros [H1 H2] [H3 H4]. split; eapply leb_trans; eassumption.
  - intros H1 H2. exact (ltb_trans _ _ _ H2 H1).
  - intros H1 H2. exact (ltb_trans _ _ _ H1 H2).
Qed.

Lemma stableSort_descending (l : list A) :
  Forall (fun a => PrimFloat.is_nan (key a) = false) l ->
  descendingBy key (stableSort A (descendingComparator key) l).
Proof.
  intros Hn. unfold stableSort, descendingBy.
  set (after := placedAfter (descendingComparator key)).
  assert (Hn' : Forall (fun a => PrimFloat.is_nan (key a) = false)
                  (insertionSort after l)).
  { apply Forall_forall. intros a Ha.
    apply (Permutation_in _ (insertionSort_perm after l)) in Ha.
    revert a Ha. apply Forall_forall. exact Hn. }
  pose proof (insertionSort_sorted after l) as Hs.
  apply Sorted_StronglySorted.
  - intros a b c Hab Hbc. exact (leb_trans _ _ _ Hbc Hab).
  - induction Hs as [|x l' Hs IH Hh]; [constructor|].
    inversion Hn' as [|? ? Hx Hl]; subst.
    constructor; [apply IH; exact Hl|].
    destruct Hh as [|y l'' Hxy]; constructor.
    inversion Hl; subst. apply not_ltb_leb; try assumption.
    unfold inOrder, after in Hxy. rewrite !placedAfter_key in Hxy.
    destruct Hxy as [H|H]; [exact H | apply ltb_asym; exact H].
Qed.

(** An engine that conforms sorts elements without NaN keys largest
    first, ties in their original order. *)
Lemma sort_descending
  (sort : forall A : Type, (A -> A -> float) -> list A -> list A) (l : list A) :
  conforming sort ->
  Forall (fun a => PrimFloat.is_nan (key a) = false) l ->
  sort A (descendingComparator key) l = stableSort A (descendingComparator key) l
  /\ descendingBy key (sort A (descendingComparator key) l).
Proof.
  intros [_ Hc] Hn.
  rewrite (Hc A (descendingComparator key) l (descending_consistent l Hn)).
  split; [reflexivity | apply stableSort_descending; exact Hn].
Qed.

End Descending.

(** ** Dictionaries *)

Section Dictionaries.

Context {A : Type}.










End Dictionaries.

(** ** Field chains *)

Ltac use_truthy :=
  repeat (progress (cbv iota;
                    repeat match goal with
                           | H : truthy _ = _ |- _ => rewrite H
                           end)).

Ltac chain :=
  unfold JS.orElse; cbn [firstTruthy];
  repeat match goal with
         | |- context [truthy (get ?r ?k)] =>
             let E := fresh "E" in
             destruct (truthy (get r k)) eqn:E; use_truthy
         end;
  try reflexivity.

(** Every chain of the script is the first truthy value among its keys. *)
Lemma valueChains_firstTruthy (row : JS.row) :
  Forall (fun c => let '(f, keys, dflt) := c in f row = firstTruthy row keys dflt)
    valueChains.
Proof.
  unfold valueChains.
  repeat (apply Forall_cons;
          [ unfold carrierOf, riskLevelOf, shipmentIdOf, modeOf, originOf,
              destinationOf, routeModeOf, lateIdOf, lateCarrierOf, lateOriginOf,
              lateDestinationOf; chain |]).
  apply Forall_nil.
Qed.

Lemma numberChains_firstTruthy (row : JS.row) :
  Forall (fun c => let '(f, keys) := c in
                   f row = num (firstTruthy row keys (VNum 0)))
    numberChains.
Proof.
  unfold numberChains.
  repeat (apply Forall_cons;
          [ unfold delayDaysSavings, delayDaysKpi, distanceKmScatter, costUsdOf,
              actualEmissionsOf, distanceKmOf, weightKgOf; f_equal; chain |]).
  apply Forall_nil.
Qed.



Lemma get_absent (row : JS.row) (k : string) :
  lookup k row = None -> get row k = VUndefined.
Proof. unfold get. intros ->. reflexivity. Qed.

Lemma firstTruthy_absent (row : JS.row) (keys : list string) (dflt : value) :
  Forall (fun k => lookup k row = None) keys -> firstTruthy row keys dflt = dflt.
Proof.
  induction 1 as [|k ks Hk _ IH]; cbn [firstTruthy]; [reflexivity|].
  rewrite (get_absent _ _ Hk). exact IH.
Qed.

Lemma firstTruthy_skip (row : JS.row) (k : string) (ks : list string)
  (dflt : value) :
  truthy (get row k) = false ->
  firstTruthy row (k :: ks) dflt = firstTruthy row ks dflt.
Proof. intros H. cbn [firstTruthy]. rewrite H. reflexivity. Qed.

(** The chains as the statements about single fields use them. *)
Lemma carrierOf_firstTruthy (row : JS.row) :
  carrierOf row
  = firstTruthy row ["carrier_name"; "Carrier"; "carrier"]%string (VStr "Unknown").
Proof. unfold carrierOf. chain. Qed.

Lemma delayDaysKpi_firstTruthy (row : JS.row) :
  delayDaysKpi row
  = num (firstTruthy row ["actual_delay_days"; "DelayDays"]%string (VNum 0)).
Proof. unfold delayDaysKpi. f_equal. chain. Qed.

Lemma delayDaysSavings_firstTruthy (row : JS.row) :
  delayDaysSavings row
  = num (firstTruthy row ["DelayDays"; "delay_days"; "delay"; "Delay"]%string
           (VNum 0)).
Proof. unfold delayDaysSavings. f_equal. chain. Qed.

Lemma riskLevelOf_firstTruthy (row : JS.row) :
  riskLevelOf row
  = firstTruthy row ["risk_level"; "RiskLevel"; "risk"; "ai_risk_score"]%string
      (VStr "Unknown").
Proof. unfold riskLevelOf. chain. Qed.

Lemma modeOf_resolved (row : JS.row) : toPropertyKey (modeOf row) = resolvedMode row.
Proof. unfold modeOf, resolvedMode. f_equal. chain. Qed.

Lemma distanceKmOf_resolved (row : JS.row) : distanceKmOf row = resolvedDistance row.
Proof. unfold distanceKmOf, resolvedDistance. f_equal. chain. Qed.


Lemma weightKgOf_resolved (row : JS.row) : weightKgOf row = resolvedWeight row.
Proof. unfold weightKgOf, resolvedWeight. f_equal. chain. Qed.

Lemma actualEmissionsOf_resolved (row : JS.row) :
  actualEmissionsOf row = resolvedActualEmissions row.
Proof. unfold actualEmissionsOf, resolvedActualEmissions. f_equal. chain. Qed.




Lemma riskByScore_bucket (n : float) :
  In (riskByScore n) ["Low"; "Medium"; "High"; "Critical"]%string.
Proof.
  unfold riskByScore.
  destruct (n <=? 0.3); [cbn; auto|].
  destruct (n <=? 0.6); [cbn; auto|].
  destruct (n <=? 0.8); cbn; auto.
Qed.

(** C10.  A falsy value under the first key of a chain is skipped: the
    chain goes on to its next key or to its default, in every chain of the
    script.  So [{actual_delay_days: 0, DelayDays: 5}] has the delay 5, and
    the risk level of [{risk_level: 0}] resolves to "Unknown".  The risk
    chart nevertheless counts that row as "Low": the classification scores
    the string "Unknown" as 0. *)
Theorem C10_falsy_value_falls_through (row : JS.row) :
  Forall (fun c => let '(f, keys, dflt) := c in
            forall k ks, keys = k :: ks -> truthy (get row k) = false ->
                         f row = firstTruthy row ks dflt)
    valueChains
  /\ Forall (fun c => let '(f, keys) := c in
               forall k ks, keys = k :: ks -> truthy (get row k) = false ->
                            f row = num (firstTruthy row ks (VNum 0)))
       numberChains
  /\ (truthy (row@"DelayDays") = false ->
      delayDaysSavings row
      = num (row@"delay_days" ||| row@"delay" ||| row@"Delay" ||| VNum 0))
  /\ (truthy (row@"actual_delay_days") = false ->
      delayDaysKpi row = num (row@"DelayDays" ||| VNum 0))
  /\ (truthy (row@"risk_level") = false ->
      riskLevelOf row
      = row@"RiskLevel" ||| row@"risk" ||| row@"ai_risk_score" ||| VStr "Unknown")
  /\ Forall (fun v => truthy v = false)
       [VNum 0; VStr ""; VBool false; VNull; VNum nan; VUndefined]
  /\ delayDaysKpi [("actual_delay_days", VNum 0); ("DelayDays", VNum 5)]%string = 5
  /\ riskLevelOf zeroRiskRow = VStr "Unknown"
  /\ normalizedRisk (riskLevelOf zeroRiskRow) = "Low"%string
  /\ createRiskDistributionChart [zeroRiskRow] = Some [("Low"%string, 1%nat)].
Proof.
  split; [|split].
  - eapply Forall_impl; [|apply valueChains_firstTruthy].
    intros [[f keys] dflt] H k ks -> Hk. rewrite H. apply firstTruthy_skip, Hk.
  - eapply Forall_impl; [|apply numberChains_firstTruthy].
    intros [f keys] H k ks -> Hk. rewrite H. f_equal. apply firstTruthy_skip, Hk.
  - repeat split.
    + intros H. unfold delayDaysSavings, JS.orElse. rewrite H. reflexivity.
    + intros H. unfold delayDaysKpi, JS.orElse. rewrite H. reflexivity.
    + intros H. unfold riskLevelOf, JS.orElse. rewrite H. reflexivity.
    + repeat constructor.
Qed.

Lemma C10_falsy_value_falls_through_witness :
  delayDaysKpi [("actual_delay_days", VNum 0); ("DelayDays", VNum 5)]%string
  = num ([("actual_delay_days", VNum 0); ("DelayDays", VNum 5)]%string@"DelayDays"
         ||| VNum 0)
  /\ delayDaysSavings [("DelayDays", VStr ""); ("delay", VNum 2)]%string
     = num (firstTruthy [("DelayDays", VStr ""); ("delay", VNum 2)]%string
              ["delay_days"; "delay"; "Delay"]%string (VNum 0)).
Proof.
  split.
  - apply (proj1 (proj2 (proj2 (proj2 (C10_falsy_value_falls_through
             [("actual_delay_days", VNum 0); ("DelayDays", VNum 5)]%string))))).
    reflexivity.
  - apply (Forall_inv (proj1 (proj2 (C10_falsy_value_falls_through
             [("DelayDays", VStr ""); ("delay", VNum 2)]%string)))
             "DelayDays"%string ["delay_days"; "delay"; "Delay"]%string eq_refl).
    reflexivity.
Defined.

(** ** Configuration *)

Lemma truthy_num (p : float) :
  truthy (VNum p) = true ->
  PrimFloat.is_nan p = false /\ PrimFloat.is_zero p = false.
Proof.
  cbn [truthy]. destruct (PrimFloat.is_zero p), (PrimFloat.is_nan p);
    cbn; intros H; try discriminate; split; reflexivity.
Qed.

(** C4 (as amended).  The constant is the parsed parameter when the
    parameter is present, not empty, and parses to a number that is neither
    NaN nor a zero; it is 120 otherwise.  It is never NaN and never zero. *)
Theorem C4_cost_per_delay_day (cpdParam : option string) :
  (cpdParam = None \/ cpdParam = Some ""%string ->
   COST_PER_DELAY_DAY cpdParam = 120)
  /\ (forall s, cpdParam = Some s -> s <> ""%string ->
      (PrimFloat.is_nan (parseFloat s) || PrimFloat.is_zero (parseFloat s) = true ->
       COST_PER_DELAY_DAY cpdParam = 120)
      /\ (PrimFloat.is_nan (parseFloat s) || PrimFloat.is_zero (parseFloat s) = false ->
          COST_PER_DELAY_DAY cpdParam = parseFloat s))
  /\ PrimFloat.is_nan (COST_PER_DELAY_DAY cpdParam) = false
  /\ PrimFloat.is_zero (COST_PER_DELAY_DAY cpdParam) = false.
Proof.
  split; [|split].
  - intros [-> | ->]; reflexivity.
  - intros s -> Hs. unfold COST_PER_DELAY_DAY. cbn [truthy].
    destruct (String.eqb_spec s ""%string) as [->|_]; [congruence|]. cbn [negb].
    rewrite orb_comm. split; intros ->; reflexivity.
  - unfold COST_PER_DELAY_DAY.
    destruct cpdParam as [s|]; [|split; reflexivity].
    destruct (truthy (VStr s)); [|split; reflexivity].
    destruct (truthy (VNum (parseFloat s))) eqn:E; [|split; reflexivity].
    apply truthy_num in E. exact E.
Qed.

Lemma C4_cost_per_delay_day_witness :
  COST_PER_DELAY_DAY (Some "250"%string) = parseFloat "250".
Proof.
  apply (proj2 (proj1 (proj2 (C4_cost_per_delay_day (Some "250"%string)))
                  "250"%string eq_refl ltac:(discriminate))).
  vm_compute. reflexivity.
Defined.

(** C4 (as stated) fails: ["0"] parses to the finite number 0, yet the
    constant is 120; ["Infinity"] does not parse to a finite number, yet the
    constant is that infinity and not 120. *)
Lemma C4_counterexample :
  (parseFloat "0" = 0 /\ COST_PER_DELAY_DAY (Some "0"%string) = 120
   /\ COST_PER_DELAY_DAY (Some "0"%string) <> parseFloat "0")
  /\ (PrimFloat.is_infinity (parseFloat "Infinity") = true
      /\ COST_PER_DELAY_DAY (Some "Infinity"%string) = infinity
      /\ COST_PER_DELAY_DAY (Some "Infinity"%string) <> 120).
Proof.
  repeat split; try (vm_compute; reflexivity).
  - intros H. apply (f_equal PrimFloat.is_zero) in H. vm_compute in H. discriminate.
  - intros H. apply (f_equal PrimFloat.is_infinity) in H. vm_compute in H. discriminate.
Qed.

(** ** KPIs and savings *)

Lemma delayDaysSavings_absent (row : JS.row) :
  Forall (fun k => lookup k row = None)
    ["DelayDays"; "delay_days"; "delay"; "Delay"]%string ->
  delayDaysSavings row = 0.
Proof.
  intros H. rewrite delayDaysSavings_firstTruthy, (firstTruthy_absent _ _ _ H).
  reflexivity.
Qed.

(** C2.  On the scenario rows the on-time percentage is 50 and the average
    delay of the late shipments is 3, but the savings potential is 0, not
    360: [computeSavingsPotential] does not read [actual_delay_days], so it
    is 0 on every row set whose delays are stored under that key only.  The
    same delays under the key [DelayDays] give 360. *)
Theorem C2_scenario_kpis :
  updateKPIs None scenarioRows
  = Some {| totalShipments := 2; onTimePercentage := 50; avgDelayLate := 3;
            savings := 0; displaySavings := 187923 |}
  /\ computeSavingsPotential None scenarioRows = 0
  /\ computeSavingsPotential None
       [ [("DelayDays", VNum 3); ("carrier_name", VStr "A")];
         [("DelayDays", VNum (-1)); ("carrier_name", VStr "A")] ]%string
     = 360
  /\ (forall cpdParam rows,
         Forall (fun row =>
                   Forall (fun k => lookup k row = None)
                     ["DelayDays"; "delay_days"; "delay"; "Delay"]%string) rows ->
         computeSavingsPotential cpdParam rows = 0).
Proof.
  split; [vm_compute; reflexivity|].
  split; [vm_compute; reflexivity|].
  split; [vm_compute; reflexivity|].
  intros cpdParam rows H. unfold computeSavingsPotential.
  destruct rows as [|row0 rows0]; [reflexivity|].
  induction H as [|row rows Hrow _ IH]; cbn [fold_left]; [reflexivity|].
  rewrite (delayDaysSavings_absent _ Hrow).
  change (0 + (if 0 <? 0 then 0 * COST_PER_DELAY_DAY cpdParam else 0)) with 0.
  exact IH.
Qed.

Lemma C2_scenario_kpis_witness :
  computeSavingsPotential (Some "250"%string) scenarioRows = 0.
Proof.
  apply (proj2 (proj2 (proj2 C2_scenario_kpis))).
  repeat constructor.
Defined.

(** ** Empty input *)

(** C5.  On the empty row set the savings potential is 0, the correlation
    of fewer than two points is 0, and every other aggregate stops at its
    guard: nothing is divided, so no ratio is NaN. *)
Theorem C5_empty_input
  (sort : forall A : Type, (A -> A -> float) -> list A -> list A)
  (cpdParam : option string) :
  computeSavingsPotential cpdParam [] = 0
  /\ calculatePearsonCorrelation [] = 0
  /\ (forall p, calculatePearsonCorrelation [p] = 0)
  /\ PrimFloat.is_nan (computeSavingsPotential cpdParam []) = false
  /\ PrimFloat.is_nan (calculatePearsonCorrelation []) = false
  /\ updateKPIs cpdParam [] = None
  /\ createDelayByCarrierChart sort [] = None
  /\ createRiskDistributionChart [] = None
  /\ createCostDistanceChart [] = None
  /\ createModeEmissionsChart [] = None
  /\ renderInsights sort cpdParam [] = None
  /\ (conforming sort -> filteredCarriersOf sort [] = [])
  /\ scatterDataOf [] = []
  /\ validPointsOf [] = []
  /\ entries (riskCountsOf normalizedRisk []) = []
  /\ entries (modeEmissionsOf []) = []
  /\ totalEmissionsOf [] = 0.
Proof.
  repeat split.
  intros [Hperm _]. unfold filteredCarriersOf.
  apply Permutation_nil, Permutation_sym, Hperm.
Qed.

(** ** Risk classification *)

(** C3.  The keyword and threshold steps behave as described, but the last
    step is unreachable: [num] never yields NaN, so a string without keyword
    is scored 0 when it is not numeric and lands in "Low"; no string is kept
    as its own bucket. *)
Theorem C3_risk_classification :
  normalizedRisk (VNum 0.75) = "High"%string
  /\ normalizedRisk (VStr "medium risk") = "Medium"%string
  /\ (forall n, normalizedRisk (VNum n) = riskByScore n)
  /\ (forall s, includes (toLowerCase s) "low" = true ->
                normalizedRisk (VStr s) = "Low"%string)
  /\ normalizedRisk (VStr "pending") = "Low"%string
  /\ (forall s, In (normalizedRisk (VStr s))
                  ["Low"; "Medium"; "High"; "Critical"]%string)
  /\ (forall s,
         let lowerRisk := toLowerCase s in
         normalizedRisk (VStr s)
         = if includes lowerRisk "low" || String.eqb lowerRisk "l"
           then "Low"%string
           else if includes lowerRisk "medium" || includes lowerRisk "med"
                   || String.eqb lowerRisk "m"
           then "Medium"%string
           else if includes lowerRisk "high" || String.eqb lowerRisk "h"
           then "High"%string
           else if includes lowerRisk "critical" || includes lowerRisk "crit"
           then "Critical"%string
           else riskByScore (num (VStr s))).
Proof.
  split; [vm_compute; reflexivity|].
  split; [vm_compute; reflexivity|].
  split; [reflexivity|].
  split; [intros s H; unfold normalizedRisk; rewrite H; reflexivity|].
  split; [vm_compute; reflexivity|].
  split.
  - intros s. unfold normalizedRisk.
    destruct (_ || _); [cbn; auto|].
    destruct (_ || _); [cbn; auto|].
    destruct (_ || _); [cbn; auto|].
    destruct (_ || _); [cbn; auto|].
    rewrite num_not_nan. cbn [negb]. apply riskByScore_bucket.
  - intros s lowerRisk. unfold normalizedRisk. fold lowerRisk.
    rewrite num_not_nan. reflexivity.
Qed.

Lemma C3_risk_classification_witness :
  normalizedRisk (VStr "Very LOW") = "Low"%string.
Proof.
  apply (proj1 (proj2 (proj2 (proj2 C3_risk_classification)))).
  vm_compute. reflexivity.
Defined.

(** ** Emissions *)

Lemma Prim2SF_nan_inv (z : float) : Prim2SF z = S754_nan -> z = nan.
Proof. intros H. apply Prim2SF_inj. rewrite H. reflexivity. Qed.

Lemma mul_nan_r (x : float) : x * nan = nan.
Proof.
  apply Prim2SF_nan_inv. rewrite mul_spec.
  change (Prim2SF nan) with S754_nan.
  destruct (Prim2SF x); reflexivity.
Qed.

Lemma mul_nan_l (x : float) : nan * x = nan.
Proof.
  apply Prim2SF_nan_inv. rewrite mul_spec.
  change (Prim2SF nan) with S754_nan. reflexivity.
Qed.

Lemma div_nan_l (x : float) : nan / x = nan.
Proof.
  apply Prim2SF_nan_inv. rewrite div_spec.
  change (Prim2SF nan) with S754_nan. reflexivity.
Qed.

(** The factor is the one of the table, Road for a mode that is not in the
    table, except under the name of an inherited property, where it is
    NaN. *)
Lemma factorOf_modeFactor (mode : value) :
  factorOf mode
  = if inherited (toPropertyKey mode) then nan
    else modeFactor (toPropertyKey mode).
Proof.
  unfold factorOf, read, modeFactor, factors. cbn [lookup].
  destruct (String.eqb_spec (toPropertyKey mode) "Air") as [->|_]; [reflexivity|].
  destruct (String.eqb_spec (toPropertyKey mode) "Road") as [->|_]; [reflexivity|].
  destruct (String.eqb_spec (toPropertyKey mode) "Rail") as [->|_]; [reflexivity|].
  destruct (String.eqb_spec (toPropertyKey mode) "Sea") as [->|_]; [reflexivity|].
  destruct (inherited (toPropertyKey mode)); reflexivity.
Qed.

Lemma estimatedEmissions_documented (row : JS.row) :
  estimatedEmissions (modeOf row) row
  = if inherited (resolvedMode row) then nan else documentedEstimate row.
Proof.
  unfold estimatedEmissions, documentedEstimate, tonsOf.
  rewrite factorOf_modeFactor, modeOf_resolved, distanceKmOf_resolved,
    weightKgOf_resolved.
  destruct (inherited (resolvedMode row)); [|reflexivity].
  rewrite mul_nan_r, mul_nan_l, div_nan_l. reflexivity.
Qed.

(** C8.  A row whose actual emissions are not greater than 0 is estimated
    as distance x factor x tons / 1000, with the factor table
    Air 500, Road 62, Rail 22, Sea 10, Road for any other mode, and one ton
    when the weight is not positive: this holds unless the mode is the name
    of a property that every object inherits ("constructor", "toString",
    ...).  For such a mode the table lookup finds the inherited function,
    Road is not used, and the estimate is NaN. *)
Theorem C8_emissions_estimate :
  (forall row,
      (0 <? resolvedActualEmissions row) = false ->
      inherited (resolvedMode row) = false ->
      emissionsKg row = documentedEstimate row)
  /\ (forall row,
         (0 <? resolvedActualEmissions row) = false ->
         inherited (resolvedMode row) = true ->
         emissionsKg row = nan)
  /\ (forall row,
         (0 <? resolvedActualEmissions row) = true ->
         emissionsKg row = resolvedActualEmissions row)
  /\ (documentedEstimate airRow = 1000 /\ emissionsKg airRow = 1000)
  /\ ((0 <? resolvedActualEmissions constructorRow) = false
      /\ documentedEstimate constructorRow = 124
      /\ emissionsKg constructorRow = nan).
Proof.
  assert (Hest : forall row,
             (0 <? resolvedActualEmissions row) = false ->
             emissionsKg row
             = if inherited (resolvedMode row) then nan else documentedEstimate row).
  { intros row H. unfold emissionsKg.
    rewrite <- actualEmissionsOf_resolved in H.
    rewrite (not_pos_leb_zero (actualEmissionsOf row) (num_not_nan _) H).
    apply estimatedEmissions_documented. }
  split; [|split; [|split; [|split]]].
  - intros row H Hi. rewrite (Hest row H), Hi. reflexivity.
  - intros row H Hi. rewrite (Hest row H), Hi. reflexivity.
  - intros row H. unfold emissionsKg. rewrite actualEmissionsOf_resolved.
    destruct (resolvedActualEmissions row <=? 0) eqn:E; [|reflexivity].
    apply leb_not_ltb in E. congruence.
  - split; reflexivity.
  - split; [reflexivity|]. split; [reflexivity|].
    apply (Hest constructorRow); reflexivity.
Qed.

Lemma C8_emissions_estimate_witness :
  (0 <? resolvedActualEmissions airRow) = false
  /\ inherited (resolvedMode airRow) = false
  /\ tonsOf airRow = 2
  /\ modeFactor (resolvedMode airRow) = 500
  /\ emissionsKg airRow = documentedEstimate airRow.
Proof.
  split; [reflexivity|]. split; [reflexivity|]. split; [reflexivity|].
  split; [reflexivity|].
  apply (proj1 C8_emissions_estimate airRow); reflexivity.
Defined.

(** ** Grouping by carrier *)














Section Ranking.

Variable sort : forall A : Type, (A -> A -> float) -> list A -> list A.

Hypothesis engine : conforming sort.





End Ranking.






(** ** Correlation *)

Lemma calculatePearsonCorrelation_formula (points : list point) :
  calculatePearsonCorrelation points
  = pearsonFormula binary64 (map pairOf points).
Proof.
  unfold calculatePearsonCorrelation, pearsonFormula.
  rewrite length_map, !map_map.
  cbn [binary64 zeroOf addOf subOf mulOf divOf sqrtOf isZeroOf ofNatOf pairOf
       fst snd].
  assert (Hxy : forall a,
             fold_left (fun sum p => sum + distance p * cost p) points a
             = fold_left (fun sum p => sum + fst p * snd p) (map pairOf points) a).
  { induction points as [|p l IH]; intros a; cbn [fold_left map]; [reflexivity|].
    apply IH. }
  rewrite Hxy. reflexivity.
Qed.

Lemma calculatePearsonCorrelation_cases (points : list point) :
  calculatePearsonCorrelation points
  = if Nat.ltb (List.length points) 2 then 0
    else if denominatorOf points =? 0 then 0
    else numeratorOf points / denominatorOf points.
Proof.
  unfold calculatePearsonCorrelation, numeratorOf, denominatorOf, sumOf.
  assert (Hm : forall (f : point -> float) (g : float -> float) l a,
             fold_left (fun s v => s + g v) (map f l) a
             = fold_left (fun s p => s + g (f p)) l a).
  { intros f g l. induction l as [|p l IH]; intros a; cbn [fold_left map];
      [reflexivity | apply IH]. }
  rewrite (Hm distance (fun v => v)), (Hm cost (fun v => v)).
  rewrite (Hm distance (fun v => v * v)), (Hm cost (fun v => v * v)).
  reflexivity.
Qed.

(** *** Over the reals *)

Section ExactCoefficient.

Local Open Scope R_scope.

Lemma fold_left_sumR {B : Type} (f : B -> R) (l : list B) (a : R) :
  fold_left (fun s b => s + f b) l a = a + sumR f l.
Proof.
  revert a. induction l as [|b l IH]; intros a; cbn [fold_left sumR fold_right].
  - ring.
  - rewrite IH. fold (sumR f l). ring.
Qed.

Lemma fold_left_map_sumR {B : Type} (f : B -> R) (g : R -> R) (l : list B) :
  fold_left (fun s v => s + g v) (map f l) 0 = sumR (fun b => g (f b)) l.
Proof.
  rewrite <- (Rplus_0_l (sumR _ l)), <- fold_left_sumR.
  generalize 0. induction l as [|b l IH]; intros a; cbn [fold_left map];
    [reflexivity | apply IH].
Qed.

Lemma sumR_nonneg {B : Type} (f : B -> R) (l : list B) :
  (forall b, 0 <= f b) -> 0 <= sumR f l.
Proof.
  intros H. induction l as [|b l IH]; cbn [sumR fold_right]; [lra|].
  fold (sumR f l). specialize (H b). lra.
Qed.

Lemma sumR_square_distance {B : Type} (g : B -> R) (z : R) (l : list B) :
  sumR (fun q => (z - g q) * (z - g q)) l
  = INR (List.length l) * (z * z) - 2 * z * sumR g l + sumR (fun q => g q * g q) l.
Proof.
  induction l as [|b l IH]; cbn [sumR fold_right List.length].
  - cbn. ring.
  - fold (sumR (fun q => (z - g q) * (z - g q)) l) (sumR g l)
         (sumR (fun q => g q * g q) l).
    rewrite IH, S_INR. ring.
Qed.

(** [n * sum g^2 - (sum g)^2] is not negative. *)
Lemma variance_nonneg {B : Type} (g : B -> R) (l : list B) :
  0 <= INR (List.length l) * sumR (fun q => g q * g q) l - sumR g l * sumR g l.
Proof.
  induction l as [|b l IH]; cbn [sumR fold_right List.length].
  - cbn. lra.
  - fold (sumR g l) (sumR (fun q => g q * g q) l).
    rewrite S_INR.
    pose proof (sumR_nonneg (fun q => (g b - g q) * (g b - g q)) l
                  (fun q => Rle_0_sqr (g b - g q))) as H.
    rewrite sumR_square_distance in H. nra.
Qed.

Lemma sumR_linear {B : Type} (f g : B -> R) (t : R) (l : list B) :
  sumR (fun b => f b + t * g b) l = sumR f l + t * sumR g l.
Proof.
  induction l as [|b l IH]; cbn [sumR fold_right]; [ring|].
  fold (sumR (fun b => f b + t * g b) l) (sumR f l) (sumR g l).
  rewrite IH. ring.
Qed.

Lemma sumR_square_linear {B : Type} (f g : B -> R) (t : R) (l : list B) :
  sumR (fun b => (f b + t * g b) * (f b + t * g b)) l
  = sumR (fun b => f b * f b) l + 2 * t * sumR (fun b => f b * g b) l
    + t * t * sumR (fun b => g b * g b) l.
Proof.
  induction l as [|b l IH]; cbn [sumR fold_right]; [ring|].
  fold (sumR (fun b => (f b + t * g b) * (f b + t * g b)) l)
       (sumR (fun b => f b * f b) l) (sumR (fun b => f b * g b) l)
       (sumR (fun b => g b * g b) l).
  rewrite IH. ring.
Qed.

(** A quadratic that is never negative has a non-positive discriminant. *)
Lemma discriminant (A B C : R) :
  0 <= B -> (forall t, 0 <= A + 2 * t * C + t * t * B) -> C * C <= A * B.
Proof.
  intros HB H. destruct (Req_dec B 0) as [E|E].
  - subst B. destruct (Req_dec C 0) as [->|HC]; [lra|].
    specialize (H (- (A + 1) / (2 * C))). exfalso.
    replace (A + 2 * (- (A + 1) / (2 * C)) * C
             + - (A + 1) / (2 * C) * (- (A + 1) / (2 * C)) * 0)
      with (- 1) in H by (field; exact HC).
    lra.
  - specialize (H (- C / B)).
    replace (A + 2 * (- C / B) * C + - C / B * (- C / B) * B)
      with ((A * B - C * C) / B) in H by (field; exact E).
    assert (HB' : 0 < B) by lra.
    apply (Rmult_le_compat_r B) in H; [|lra].
    unfold Rdiv in H. rewrite Rmult_assoc, Rinv_l, Rmult_0_l, Rmult_1_r in H by exact E.
    lra.
Qed.

(** Cauchy-Schwarz for the sums of the formula. *)
Lemma covariance_bound (l : list (R * R)) :
  let n := INR (List.length l) in
  let A := n * sumR (fun p => fst p * fst p) l - sumR fst l * sumR fst l in
  let B := n * sumR (fun p => snd p * snd p) l - sumR snd l * sumR snd l in
  let C := n * sumR (fun p => fst p * snd p) l - sumR fst l * sumR snd l in
  0 <= A /\ 0 <= B /\ C * C <= A * B.
Proof.
  intros n A B C.
  assert (HA : 0 <= A) by apply (variance_nonneg fst l).
  assert (HB : 0 <= B) by apply (variance_nonneg snd l).
  split; [exact HA|]. split; [exact HB|].
  apply discriminant; [exact HB|]. intros t.
  pose proof (variance_nonneg (fun p => fst p + t * snd p) l) as H.
  rewrite sumR_linear, sumR_square_linear in H.
  unfold A, B, C, n. nra.
Qed.

Lemma exact_coefficient_bound (points : list (R * R)) :
  Rabs (pearsonFormula exactReals points) <= 1.
Proof.
  unfold pearsonFormula.
  cbn [exactReals zeroOf addOf subOf mulOf divOf sqrtOf isZeroOf ofNatOf].
  destruct (Nat.ltb _ 2); [rewrite Rabs_R0; lra|].
  rewrite (fold_left_map_sumR fst (fun v => v)), (fold_left_map_sumR snd (fun v => v)).
  rewrite (fold_left_map_sumR fst (fun v => v * v)), (fold_left_map_sumR snd (fun v => v * v)).
  rewrite fold_left_sumR, Rplus_0_l.
  destruct (covariance_bound points) as (HA & HB & HC).
  set (A := INR (List.length points) * sumR (fun p => fst p * fst p) points
            - sumR fst points * sumR fst points) in *.
  set (B := INR (List.length points) * sumR (fun p => snd p * snd p) points
            - sumR snd points * sumR snd points) in *.
  set (C := INR (List.length points) * sumR (fun p => fst p * snd p) points
            - sumR fst points * sumR snd points) in *.
  change (sumR (fun b => fst b) points) with (sumR fst points).
  change (sumR (fun b => snd b) points) with (sumR snd points).
  fold A B C.
  destruct (Req_dec_T (R_sqrt.sqrt (A * B)) 0) as [E|E]; [rewrite Rabs_R0; lra|].
  assert (Hd : 0 < R_sqrt.sqrt (A * B))
    by (pose proof (sqrt_pos (A * B)); lra).
  assert (Hc : Rabs C <= R_sqrt.sqrt (A * B)).
  { rewrite <- sqrt_Rsqr_abs. apply sqrt_le_1_alt. exact HC. }
  unfold Rdiv. rewrite Rabs_mult, Rabs_inv, (Rabs_pos_eq (R_sqrt.sqrt (A * B))) by lra.
  apply (Rmult_le_reg_r (R_sqrt.sqrt (A * B))); [exact Hd|].
  rewrite Rmult_assoc, Rinv_l, Rmult_1_r, Rmult_1_l by lra. exact Hc.
Qed.

End ExactCoefficient.

(** C7 (as amended).  The function returns 0 for fewer than 2 points and 0
    when the denominator of the sum-based formula is 0; otherwise it returns
    the quotient of numerator and denominator as binary64 arithmetic rounds
    it.  The function is the binary64 evaluation of a formula whose value
    over the reals is at most 1 in magnitude. *)
Theorem C7_pearson_correlation (points : list point) :
  ((List.length points < 2)%nat -> calculatePearsonCorrelation points = 0)
  /\ ((denominatorOf points =? 0) = true -> calculatePearsonCorrelation points = 0)
  /\ ((2 <= List.length points)%nat -> (denominatorOf points =? 0) = false ->
      calculatePearsonCorrelation points = numeratorOf points / denominatorOf points)
  /\ calculatePearsonCorrelation points = pearsonFormula binary64 (map pairOf points)
  /\ (forall exact : list (R * R), (Rabs (pearsonFormula exactReals exact) <= 1)%R).
Proof.
  rewrite calculatePearsonCorrelation_cases.
  split; [|split; [|split; [|split]]].
  - intros H. apply Nat.ltb_lt in H. rewrite H. reflexivity.
  - intros H. rewrite H. destruct (Nat.ltb _ 2); reflexivity.
  - intros Hn Hd. apply Nat.ltb_ge in Hn. rewrite Hn, Hd. reflexivity.
  - rewrite <- calculatePearsonCorrelation_cases.
    apply calculatePearsonCorrelation_formula.
  - apply exact_coefficient_bound.
Qed.

Lemma C7_pearson_correlation_witness :
  calculatePearsonCorrelation [ {| distance := 100; cost := 250 |} ] = 0
  /\ calculatePearsonCorrelation
       [ {| distance := 100; cost := 250 |}; {| distance := 100; cost := 300 |} ] = 0
  /\ calculatePearsonCorrelation
       [ {| distance := 1; cost := 2 |}; {| distance := 2; cost := 1 |} ] = (-1)%float.
Proof.
  split; [|split].
  - apply (proj1 (C7_pearson_correlation [ {| distance := 100; cost := 250 |} ])).
    cbn. lia.
  - apply (proj1 (proj2 (C7_pearson_correlation
             [ {| distance := 100; cost := 250 |}; {| distance := 100; cost := 300 |} ]))).
    vm_compute. reflexivity.
  - rewrite (proj1 (proj2 (proj2 (C7_pearson_correlation
               [ {| distance := 1; cost := 2 |}; {| distance := 2; cost := 1 |} ])))).
    + vm_compute. reflexivity.
    + cbn. lia.
    + vm_compute. reflexivity.
Defined.

(** C7 (as stated) fails: for three points on a line the script returns
    1.0000000000000004, which exceeds 1. *)
Lemma C7_counterexample :
  (2 <= List.length roundingPoints)%nat
  /\ (denominatorOf roundingPoints =? 0) = false
  /\ calculatePearsonCorrelation roundingPoints = 1.0000000000000004
  /\ (PrimFloat.abs (calculatePearsonCorrelation roundingPoints) <=? 1) = false
  /\ validPointsOf roundingRows = roundingPoints.
Proof. repeat split; vm_compute; try reflexivity. lia. Qed.

(** ** The correlation sentence *)


Section Sentences.

Variable sort : forall A : Type, (A -> A -> float) -> list A -> list A.






End Sentences.



(* ================================================================== *)
(** * Further properties of the script                                  *)
(* ================================================================== *)

(** ** On-time and late rows *)

Lemma onTime_not_late (row : JS.row) :
  (delayDaysKpi row <=? 0) = negb (0 <? delayDaysKpi row).
Proof.
  destruct (0 <? delayDaysKpi row) eqn:E; cbn [negb].
  - destruct (delayDaysKpi row <=? 0) eqn:E'; [|reflexivity].
    apply leb_not_ltb in E'. congruence.
  - apply not_pos_leb_zero; [apply num_not_nan | exact E].
Qed.

Lemma filter_partition_length {B : Type} (p q : B -> bool) (l : list B) :
  (forall b, p b = negb (q b)) ->
  (List.length (filter p l) + List.length (filter q l) = List.length l)%nat.
Proof.
  intros H. induction l as [|b l IH]; cbn [filter List.length]; [reflexivity|].
  rewrite (H b). destruct (q b); cbn [negb List.length]; lia.
Qed.

(** X1.  Every row is either on time or late, never both, so the two row
    sets of the KPIs split the data: their sizes add up to the number of
    rows. *)
Theorem X1_on_time_late_partition (rows : list JS.row) :
  (List.length (onTimeRowsOf rows) + List.length (lateShipmentsOf rows)
   = List.length rows)%nat
  /\ (forall row, In row rows ->
        (In row (onTimeRowsOf rows) /\ ~ In row (lateShipmentsOf rows))
        \/ (In row (lateShipmentsOf rows) /\ ~ In row (onTimeRowsOf rows))).
Proof.
  split.
  - apply filter_partition_length. apply onTime_not_late.
  - intros row Hrow. unfold onTimeRowsOf, lateShipmentsOf.
    rewrite !filter_In, onTime_not_late.
    destruct (0 <? delayDaysKpi row); cbn [negb]; [right | left];
      (split; [auto | intros [_ H]; discriminate]).
Qed.

(** ** Emissions of a row in the chart and in the route sentence *)

Lemma factorOf_default (v : value) :
  factorOf (v ||| VStr "Unknown") = factorOf (v ||| VStr "Road").
Proof. unfold JS.orElse. destruct (truthy v); reflexivity. Qed.

(** X2.  The emissions that the route sentence of [renderInsights] adds up
    for a row are the emissions that the mode chart adds up for it: the two
    loops differ only in the default mode, and both defaults get the Road
    factor. *)
Theorem X2_route_emissions_agree (row : JS.row) :
  routeEmissionsKg row = emissionsKg row.
Proof.
  unfold routeEmissionsKg, emissionsKg, estimatedEmissions, modeOf, routeModeOf.
  rewrite factorOf_default. reflexivity.
Qed.

(** ** Distance in the scatter chart and in the correlation *)

Lemma distance_chains_agree (row : JS.row) :
  truthy (row@"route_distance_km") = true
  \/ truthy (row@"DistanceKm") = false
  \/ truthy (row@"distance_km") = false ->
  distanceKmScatter row = distanceKmOf row.
Proof.
  unfold distanceKmScatter, distanceKmOf, JS.orElse. intros H.
  destruct (truthy (row@"route_distance_km")) eqn:E1; cbv iota; rewrite ?E1;
    cbv iota; rewrite ?E1; [reflexivity|].
  destruct (truthy (row@"DistanceKm")) eqn:E2, (truthy (row@"distance_km")) eqn:E3;
    cbv iota; rewrite ?E2, ?E3; cbv iota; rewrite ?E2, ?E3; try reflexivity.
  destruct H as [H|[H|H]]; discriminate.
Qed.

(** X3.  The scatter chart and the correlation sentence read the columns
    [DistanceKm] and [distance_km] in opposite order.  For rows that do not
    carry both (or carry [route_distance_km]) they use the same distance, and
    then the points of the chart are the points of the correlation. *)
Theorem X3_scatter_points_are_correlation_points (rows : list JS.row) :
  Forall (fun row =>
            truthy (row@"route_distance_km") = true
            \/ truthy (row@"DistanceKm") = false
            \/ truthy (row@"distance_km") = false) rows ->
  map pointOf (scatterDataOf rows) = validPointsOf rows.
Proof.
  unfold scatterDataOf, validPointsOf.
  induction 1 as [|row rows Hrow _ IH]; [reflexivity|].
  cbn [map filter x y distance cost]. rewrite (distance_chains_agree _ Hrow).
  destruct ((0 <? distanceKmOf row) && (0 <? costUsdOf row));
    cbn [map pointOf x y]; rewrite IH; reflexivity.
Qed.

Lemma X3_scatter_points_are_correlation_points_witness :
  map pointOf (scatterDataOf mixedRows) = validPointsOf mixedRows
  /\ distanceKmScatter [("DistanceKm", VNum 5); ("distance_km", VNum 7)]%string = 5
  /\ distanceKmOf [("DistanceKm", VNum 5); ("distance_km", VNum 7)]%string = 7.
Proof.
  split; [|split; reflexivity].
  apply X3_scatter_points_are_correlation_points.
  repeat (apply Forall_cons; [vm_compute; auto|]). apply Forall_nil.
Defined.

(** ** The risk histogram *)

Lemma normalizedRisk_bucket (v : value) :
  In (normalizedRisk v) ["Low"; "Medium"; "High"; "Critical"; "Unknown"]%string.
Proof.
  assert (Hscore : forall n,
             In (riskByScore n) ["Low"; "Medium"; "High"; "Critical"; "Unknown"]%string).
  { intros n. pose proof (riskByScore_bucket n) as H. cbn in H |- *. tauto. }
  destruct v as [| |b|n|s]; cbn [normalizedRisk]; try (cbn; tauto); [apply Hscore|].
  rewrite (num_not_nan (VStr s)). cbn [negb].
  repeat match goal with
         | |- In (if ?c then _ else _) _ => destruct c
         end; try (cbn; tauto); apply Hscore.
Qed.

Lemma entries_no_index {A : Type} (o : object A) :
  Forall (fun kv => array_index (fst kv) = None) o -> entries o = o.
Proof.
  intros H. unfold entries.
  assert (Hi : index_entries o = []).
  { induction H as [|[k v] o Hk _ IH]; cbn [index_entries]; [reflexivity|].
    cbn [fst] in Hk. rewrite Hk. exact IH. }
  rewrite Hi. cbn [map app]. clear Hi.
  induction H as [|[k v] o Hk _ IH]; cbn [filter]; [reflexivity|].
  cbn [fst] in Hk |- *. rewrite Hk. f_equal. exact IH.
Qed.

Lemma firstSeen_In (k : string) (l : list string) :
  In k (firstSeen l) <-> In k l.
Proof.
  induction l as [|a l IH]; cbn [firstSeen]; [tauto|].
  cbn [In]. rewrite filter_In, IH.
  destruct (String.eqb_spec k a) as [Heq|Hne]; cbn [negb].
  - subst a. tauto.
  - split; [tauto|]. intros [H|H]; [congruence | tauto].
Qed.

Lemma firstSeen_NoDup (l : list string) : NoDup (firstSeen l).
Proof.
  induction l as [|a l IH]; cbn [firstSeen]; constructor.
  - rewrite filter_In, String.eqb_refl. cbn. intros [_ H]. discriminate.
  - apply NoDup_filter. exact IH.
Qed.

Lemma existsb_eqb_In (k : string) (l : list string) :
  existsb (String.eqb k) l = true <-> In k l.
Proof.
  rewrite existsb_exists. split.
  - intros [a [Ha He]]. apply String.eqb_eq in He. subst a. exact Ha.
  - intros H. exists k. split; [exact H | apply String.eqb_refl].
Qed.

Lemma firstSeen_snoc (l : list string) (a : string) :
  firstSeen (l ++ [a])
  = if existsb (String.eqb a) l then firstSeen l else (firstSeen l ++ [a])%list.
Proof.
  induction l as [|k l IH]; [reflexivity|].
  cbn [app firstSeen existsb]. rewrite IH.
  destruct (String.eqb_spec a k) as [Heq|Hne]; cbn [orb].
  - subst k. destruct (existsb (String.eqb a) l); [reflexivity|].
    rewrite filter_app. cbn [filter]. rewrite String.eqb_refl. cbn [negb].
    rewrite app_nil_r. reflexivity.
  - destruct (existsb (String.eqb a) l); [reflexivity|].
    rewrite filter_app. cbn [filter].
    destruct (String.eqb_spec a k) as [Heq|_]; [contradiction|]. reflexivity.
Qed.

Lemma count_occ_snoc (l : list string) (a k : string) :
  count_occ string_dec (l ++ [a]) k
  = if String.eqb k a then S (count_occ string_dec l k)
    else count_occ string_dec l k.
Proof.
  rewrite count_occ_app. cbn [count_occ].
  destruct (string_dec a k) as [Heq|Hne].
  - subst k. rewrite String.eqb_refl. lia.
  - destruct (String.eqb_spec k a) as [Heq|_]; [congruence | lia].
Qed.

Lemma upsert_counted (c : string -> nat) (a : string) (ks : list string) :
  NoDup ks ->
  (existsb (String.eqb a) ks = false -> c a = O) ->
  upsert a 0%nat S (map (fun k => (k, c k)) ks)
  = map (fun k => (k, if String.eqb k a then S (c k) else c k))
      (if existsb (String.eqb a) ks then ks else (ks ++ [a])%list).
Proof.
  induction 1 as [|k ks Hk Hnd IH]; intros Hc.
  - cbn. rewrite String.eqb_refl, Hc; reflexivity.
  - cbn [map upsert existsb].
    destruct (String.eqb_spec a k) as [Heq|Hne]; cbn [orb].
    + subst k. cbn [map]. rewrite String.eqb_refl. f_equal.
      apply map_ext_in. intros k Hin.
      destruct (String.eqb_spec k a) as [Heq|_]; [subst k; contradiction | reflexivity].
    + rewrite IH.
      * destruct (existsb (String.eqb a) ks); cbn [map app];
          (destruct (String.eqb_spec k a) as [Heq|_]; [congruence | reflexivity]).
      * intros H. apply Hc. cbn [existsb].
        destruct (String.eqb_spec a k) as [Heq|_]; [contradiction | exact H].
Qed.

Lemma countsOf_snoc (labels : list string) (a : string) :
  countsOf (labels ++ [a]) = upsert a 0%nat S (countsOf labels).
Proof. unfold countsOf. rewrite fold_left_app. reflexivity. Qed.

(** The dictionary of counts is the histogram of the labels. *)
Lemma countsOf_histogram (labels : list string) :
  countsOf labels = histogramOf labels.
Proof.
  induction labels as [|a labels IH] using rev_ind; [reflexivity|].
  rewrite countsOf_snoc, IH. unfold histogramOf.
  rewrite upsert_counted.
  - rewrite firstSeen_snoc.
    assert (He : existsb (String.eqb a) (firstSeen labels)
                 = existsb (String.eqb a) labels).
    { apply eq_true_iff_eq. rewrite !existsb_eqb_In. apply firstSeen_In. }
    rewrite He. apply map_ext. intros k. rewrite count_occ_snoc. reflexivity.
  - apply firstSeen_NoDup.
  - intros H. apply count_occ_not_In. intros Hin.
    apply (proj2 (firstSeen_In _ _)), (proj2 (existsb_eqb_In _ _)) in Hin.
    congruence.
Qed.

Lemma riskCountsOf_countsOf (classify : value -> string) (rows : list JS.row) :
  riskCountsOf classify rows = countsOf (riskLabelsOf classify rows).
Proof.
  unfold riskCountsOf, countsOf, riskLabelsOf.
  generalize (@nil (string * nat)).
  induction rows as [|row rows IH]; intros o; [reflexivity|].
  cbn [map fold_left]. apply IH.
Qed.

Lemma histogram_total (labels : list string) :
  list_sum (map snd (countsOf labels)) = List.length labels.
Proof.
  assert (Hup : forall a (o : object nat),
             list_sum (map snd (upsert a 0%nat S o)) = S (list_sum (map snd o))).
  { intros a o. induction o as [|[k v] o IH]; [reflexivity|].
    cbn [upsert]. destruct (String.eqb a k).
    - cbn. lia.
    - change (snd (k, v) + list_sum (map snd (upsert a 0%nat S o))
              = S (snd (k, v) + list_sum (map snd o)))%nat.
      rewrite IH. lia. }
  induction labels as [|a labels IH] using rev_ind; [reflexivity|].
  rewrite countsOf_snoc, Hup, IH, length_app. cbn. lia.
Qed.

(** X4.  For a non-empty row set the risk chart shows the histogram of the
    rows' risk labels: one bar per distinct label, in the order in which the
    labels first appear in the data, each with the number of rows that carry
    it; the bars add up to the number of rows. *)
Theorem X4_risk_chart_is_histogram (rows : list JS.row) :
  rows <> [] ->
  createRiskDistributionChart rows
  = Some (histogramOf (riskLabelsOf normalizedRisk rows))
  /\ list_sum (map snd (histogramOf (riskLabelsOf normalizedRisk rows)))
     = List.length rows.
Proof.
  intros Hrows. split.
  - unfold createRiskDistributionChart.
    destruct rows as [|row rows]; [contradiction|].
    rewrite entries_no_index.
    + rewrite riskCountsOf_countsOf, countsOf_histogram.
      cbn [riskLabelsOf map histogramOf firstSeen]. reflexivity.
    + rewrite riskCountsOf_countsOf, countsOf_histogram. unfold histogramOf.
      apply Forall_forall. intros kv Hin. apply in_map_iff in Hin.
      destruct Hin as [k [Hkv Hk]]. subst kv. cbn [fst].
      apply (proj1 (firstSeen_In _ _)) in Hk. unfold riskLabelsOf in Hk.
      apply in_map_iff in Hk. destruct Hk as [r [Hr _]]. subst k.
      pose proof (normalizedRisk_bucket (riskLevelOf r)) as Hb.
      cbn [In] in Hb.
      destruct Hb as [Hb|[Hb|[Hb|[Hb|[Hb|[]]]]]]; rewrite <- Hb; reflexivity.
  - rewrite <- countsOf_histogram, histogram_total.
    unfold riskLabelsOf. apply length_map.
Qed.

Lemma X4_risk_chart_is_histogram_witness :
  createRiskDistributionChart mixedRows
  = Some [("High", 2); ("Low", 2); ("Critical", 1)]%string%nat.
Proof.
  assert (H : mixedRows <> []) by discriminate.
  destruct (X4_risk_chart_is_histogram mixedRows H) as [Hc _].
  rewrite Hc. vm_compute. reflexivity.
Defined.

(** ** The high-risk sentence *)





(** ** Dictionaries of amounts *)






(** ** The emissions chart *)


(** ** The list of insights *)




Section Insights.

Variable sort : forall A : Type, (A -> A -> float) -> list A -> list A.

Hypothesis engine : conforming sort.


End Insights.



(** ** The worst carrier *)







(** ** The sign of the savings *)

Section Binary64Sign.

Local Open Scope Z_scope.

Lemma shr_fexp_nonneg (m e : Z) (l : location) :
  0 <= m -> 0 <= shr_m (fst (shr_fexp prec emax m e l)).
Proof.
  intros Hm. unfold shr_fexp, shr.
  destruct (fexp prec emax (Zdigits2 m + e) - e) as [|q|q]; cbn [fst];
    rewrite ?shr_record_of_loc_m; try exact Hm.
  rewrite iter_shr_1_m by (rewrite shr_record_of_loc_m; exact Hm).
  rewrite shr_record_of_loc_m. apply Z.div_pos; [exact Hm|].
  apply Z.pow_pos_nonneg; lia.
Qed.

Lemma round_nearest_even_nonneg (m : Z) (l : location) :
  0 <= m -> 0 <= round_nearest_even m l.
Proof.
  intros Hm. destruct l as [|[]]; cbn [round_nearest_even]; try lia.
  destruct (Z.even m); lia.
Qed.

Lemma binary_round_aux_nonneg (m e : Z) (l : location) :
  0 <= m ->
  SFleb (S754_zero false) (binary_round_aux prec emax false m e l) = true.
Proof.
  intros Hm. unfold binary_round_aux.
  pose proof (shr_fexp_nonneg m e l Hm) as H1.
  destruct (shr_fexp prec emax m e l) as [mrs' e']. cbn [fst] in H1.
  pose proof (shr_fexp_nonneg _ e' loc_Exact
                (round_nearest_even_nonneg _ (loc_of_shr_record mrs') H1)) as H2.
  destruct (shr_fexp prec emax _ e' loc_Exact) as [mrs'' e'']. cbn [fst] in H2.
  destruct (shr_m mrs''); try lia; [reflexivity|].
  destruct (Z.leb _ _); reflexivity.
Qed.

Lemma SFltb_SFleb (x y : spec_float) : SFltb x y = true -> SFleb x y = true.
Proof.
  unfold SFltb, SFleb. destruct (SFcompare x y) as [[]|]; congruence.
Qed.

Lemma SFadd_nonneg (x y : spec_float) :
  valid_binary x = true -> valid_binary y = true ->
  SFleb (S754_zero false) x = true -> SFleb (S754_zero false) y = true ->
  SFleb (S754_zero false) (SFadd prec emax x y) = true.
Proof.
  destruct x as [sx|sx| |sx mx ex], y as [sy|sy| |sy my ey];
    try solve [intros _ _; try destruct sx; try destruct sy;
               cbn; intros; (reflexivity || discriminate || assumption)].
  cbn [valid_binary]. intros Vx Vy.
  apply bounded_facts in Vx, Vy.
  destruct Vx as (Hex & _ & _), Vy as (Hey & _ & _).
  destruct sx; [discriminate|]. destruct sy; [intros _; discriminate|].
  intros _ _. cbn [SFadd cond_Zopp]. apply SFltb_SFleb.
  rewrite binary_normalize_sign by lia. apply Z.ltb_lt. lia.
Qed.

Lemma SFmul_pos_nonneg (x y : spec_float) :
  SFltb (S754_zero false) x = true -> SFltb (S754_zero false) y = true ->
  SFleb (S754_zero false) (SFmul prec emax x y) = true.
Proof.
  destruct x as [sx|sx| |sx mx ex], y as [sy|sy| |sy my ey];
    try solve [try destruct sx; try destruct sy; cbn; intros;
               (reflexivity || discriminate)].
  destruct sx; [discriminate|]. destruct sy; [intros _; discriminate|].
  intros _ _. cbn [SFmul xorb]. apply binary_round_aux_nonneg. lia.
Qed.

End Binary64Sign.

Lemma add_nonneg (x y : float) :
  (0 <=? x) = true -> (0 <=? y) = true -> (0 <=? x + y) = true.
Proof.
  rewrite !leb_spec, add_spec, Prim2SF_zero.
  apply SFadd_nonneg; apply Prim2SF_valid.
Qed.

Lemma mul_pos_nonneg (x y : float) :
  (0 <? x) = true -> (0 <? y) = true -> (0 <=? x * y) = true.
Proof.
  rewrite !ltb_spec, leb_spec, mul_spec, Prim2SF_zero.
  apply SFmul_pos_nonneg.
Qed.

Lemma leb_not_nan_r (x y : float) : (x <=? y) = true -> PrimFloat.is_nan y = false.
Proof.
  intros H. destruct (PrimFloat.is_nan y) eqn:E; [|reflexivity].
  rewrite leb_spec in H. unfold Prim2SF at 2 in H. rewrite E in H.
  unfold SFleb in H. destruct (Prim2SF x); discriminate.
Qed.

(** X9.  With a positive cost per delay day (the default 120 is one) the
    savings potential is a number, and it is never negative. *)
Theorem X9_savings_not_negative (cpdParam : option string) (rows : list JS.row) :
  (0 <? COST_PER_DELAY_DAY cpdParam) = true ->
  (0 <=? computeSavingsPotential cpdParam rows) = true
  /\ PrimFloat.is_nan (computeSavingsPotential cpdParam rows) = false.
Proof.
  intros Hc.
  assert (H : (0 <=? computeSavingsPotential cpdParam rows) = true).
  { unfold computeSavingsPotential. destruct rows as [|row0 rows0]; [reflexivity|].
    set (rows := row0 :: rows0).
    assert (Hfold : forall sum, (0 <=? sum) = true ->
              (0 <=? fold_left
                       (fun sum row =>
                          let delayDays := delayDaysSavings row in
                          sum + (if 0 <? delayDays
                                 then delayDays * COST_PER_DELAY_DAY cpdParam
                                 else 0))
                       rows sum) = true).
    { induction rows as [|row rows' IH]; intros sum Hs; [exact Hs|].
      cbn [fold_left]. apply IH. cbv zeta. apply add_nonneg; [exact Hs|].
      destruct (0 <? delayDaysSavings row) eqn:E; [|reflexivity].
      apply mul_pos_nonneg; assumption. }
    apply Hfold. reflexivity. }
  split; [exact H | exact (leb_not_nan_r _ _ H)].
Qed.

Lemma X9_savings_not_negative_witness :
  (0 <=? computeSavingsPotential None mixedRows) = true
  /\ PrimFloat.is_nan (computeSavingsPotential None mixedRows) = false.
Proof. apply (X9_savings_not_negative None mixedRows). reflexivity. Defined.

(** ** Symmetry of the correlation *)

Lemma SFmul_comm (x y : spec_float) : SFmul prec emax x y = SFmul prec emax y x.
Proof.
  destruct x as [sx|sx| |sx mx ex], y as [sy|sy| |sy my ey]; cbn [SFmul];
    rewrite ?(xorb_comm sx sy); try reflexivity.
  rewrite (Pos.mul_comm mx my), (Z.add_comm ex ey). reflexivity.
Qed.

Lemma mul_comm (x y : float) : x * y = y * x.
Proof. apply Prim2SF_inj. rewrite !mul_spec. apply SFmul_comm. Qed.

Lemma fold_left_swap (g : point -> float) (points : list point) (a : float) :
  fold_left (fun sum p => sum + g p) (map swapPoint points) a
  = fold_left (fun sum p => sum + g (swapPoint p)) points a.
Proof.
  revert a. induction points as [|p points IH]; intros a; [reflexivity|].
  cbn [map fold_left]. apply IH.
Qed.

Lemma fold_left_add_ext (g h : point -> float) (points : list point) (a : float) :
  (forall p, g p = h p) ->
  fold_left (fun sum p => sum + g p) points a
  = fold_left (fun sum p => sum + h p) points a.
Proof.
  intros H. revert a. induction points as [|p points IH]; intros a; [reflexivity|].
  cbn [fold_left]. rewrite (H p). apply IH.
Qed.

(** X10.  The correlation does not depend on which quantity is called x:
    exchanging distance and cost in every point gives the same number, bit
    for bit. *)
Theorem X10_correlation_symmetric (points : list point) :
  calculatePearsonCorrelation (map swapPoint points)
  = calculatePearsonCorrelation points.
Proof.
  unfold calculatePearsonCorrelation. rewrite length_map.
  destruct (Nat.ltb (List.length points) 2); [reflexivity|].
  rewrite !map_map.
  change (fun x : point => distance (swapPoint x)) with cost.
  change (fun x : point => cost (swapPoint x)) with distance.
  rewrite (fold_left_swap (fun p => distance p * cost p)).
  rewrite (fold_left_add_ext (fun p => distance (swapPoint p) * cost (swapPoint p))
             (fun p => distance p * cost p))
    by (intros p; cbn [swapPoint distance cost]; apply mul_comm).
  set (n := of_nat (List.length points)).
  set (sumX := fold_left (fun a b => a + b) (map distance points) 0).
  set (sumY := fold_left (fun a b => a + b) (map cost points) 0).
  set (sumXY := fold_left (fun sum p => sum + distance p * cost p) points 0).
  set (sumX2 := fold_left (fun sum xi => sum + xi * xi) (map distance points) 0).
  set (sumY2 := fold_left (fun sum yi => sum + yi * yi) (map cost points) 0).
  rewrite (mul_comm sumY sumX).
  rewrite (mul_comm (n * sumY2 - sumY * sumY) (n * sumX2 - sumX * sumX)).
  reflexivity.
Qed.

(** ** Stability of the sort *)

Section Stable.

Context {A : Type} (after : A -> A -> bool) (p : A -> bool).

Hypothesis unordered : forall a b, p a = true -> p b = true -> after a b = false.

Lemma filter_sort_insert (x : A) (l : list A) :
  filter p (sort_insert after x l) = filter p (x :: l).
Proof.
  induction l as [|y l IH]; [reflexivity|].
  cbn [sort_insert]. destruct (after x y) eqn:E; [|reflexivity].
  cbn [filter] in IH |- *. rewrite IH.
  destruct (p x) eqn:Hx, (p y) eqn:Hy; try reflexivity.
  rewrite (unordered x y Hx Hy) in E. discriminate.
Qed.

(** Elements that the comparator does not place after one another keep
    their places relative to one another. *)
Lemma filter_insertionSort (l : list A) :
  filter p (insertionSort after l) = filter p l.
Proof.
  induction l as [|x l IH]; [reflexivity|].
  change (insertionSort after (x :: l))
    with (sort_insert after x (insertionSort after l)).
  rewrite filter_sort_insert. cbn [filter]. rewrite IH. reflexivity.
Qed.

End Stable.

Lemma SFcompare_Eq_trans (x y d : spec_float) :
  SFcompare x d = Some Eq -> SFcompare y d = Some Eq -> SFcompare x y = Some Eq.
Proof.
  destruct x as [sx|sx| |sx mx ex], d as [sd|sd| |sd md ed], y as [sy|sy| |sy my ey];
    cbn [SFcompare]; try discriminate;
    try (destruct sx, sd, sy; (discriminate || reflexivity)).
  destruct sx, sd, sy; try discriminate; intros Hx Hy;
    destruct (Z.compare_spec ex ed) as [He|He|He]; try discriminate;
    destruct (Z.compare_spec ey ed) as [He'|He'|He']; try discriminate;
    subst; rewrite Z.compare_refl;
    change (Pos.compare_cont Eq mx md) with (Pos.compare mx md) in Hx;
    change (Pos.compare_cont Eq my md) with (Pos.compare my md) in Hy;
    change (Pos.compare_cont Eq mx my) with (Pos.compare mx my);
    destruct (Pos.compare_spec mx md); try discriminate;
    destruct (Pos.compare_spec my md); try discriminate;
    subst; rewrite Pos.compare_refl; reflexivity.
Qed.

Lemma eqb_same_not_ltb (a b d : float) :
  (a =? d) = true -> (b =? d) = true -> (a <? b) = false.
Proof.
  rewrite !eqb_spec, ltb_spec. unfold SFeqb, SFltb. intros Ha Hb.
  destruct (SFcompare (Prim2SF a) (Prim2SF d)) as [[]|] eqn:Ea; try discriminate.
  destruct (SFcompare (Prim2SF b) (Prim2SF d)) as [[]|] eqn:Eb; try discriminate.
  rewrite (SFcompare_Eq_trans _ _ _ Ea Eb). reflexivity.
Qed.

(** ** The table of late shipments *)

Lemma lateDelay_not_nan (rows : list JS.row) :
  Forall (fun s => PrimFloat.is_nan (lateDelay s) = false) (allLateShipmentsOf rows).
Proof.
  apply Forall_forall. intros s Hs. unfold allLateShipmentsOf in Hs.
  apply filter_In in Hs. destruct Hs as [Hs _].
  apply in_map_iff in Hs. destruct Hs as [row [Hrow _]]. subst s.
  apply num_not_nan.
Qed.

(** The delays are numbers, so the comparator is consistent and an engine
    that conforms returns the stable sort. *)
Lemma sorted_late_shipments
  (sort : forall A : Type, (A -> A -> float) -> list A -> list A)
  (rows : list JS.row) :
  conforming sort ->
  sort _ byDelayDesc (allLateShipmentsOf rows)
  = stableSort _ byDelayDesc (allLateShipmentsOf rows)
  /\ descendingBy lateDelay (sort _ byDelayDesc (allLateShipmentsOf rows)).
Proof.
  intros engine.
  exact (sort_descending lateDelay sort _ engine (lateDelay_not_nan rows)).
Qed.

(** X11.  On an engine whose sort conforms to the language, the table of
    late shipments lists min(5, number of late rows) shipments, each with a
    delay above zero, the longest delay first; every late shipment that is
    left out has a delay no longer than any listed one. *)
Theorem X11_top_late_shipments
  (sort : forall A : Type, (A -> A -> float) -> list A -> list A)
  (rows : list JS.row) :
  conforming sort ->
  exists rest,
    Permutation (topLateShipmentsOf sort rows ++ rest) (allLateShipmentsOf rows)
    /\ List.length (topLateShipmentsOf sort rows)
       = Nat.min 5 (List.length (allLateShipmentsOf rows))
    /\ descendingBy lateDelay (topLateShipmentsOf sort rows)
    /\ (forall s, In s (topLateShipmentsOf sort rows) ->
          (0 <? lateDelay s) = true
          /\ exists row, In row rows /\ s = toLateShipment row)
    /\ (forall s t, In s (topLateShipmentsOf sort rows) -> In t rest ->
          (lateDelay t <=? lateDelay s) = true).
Proof.
  intros engine.
  set (sorted := sort _ byDelayDesc (allLateShipmentsOf rows)).
  assert (Hsplit : (topLateShipmentsOf sort rows ++ skipn 5 sorted)%list = sorted)
    by apply firstn_skipn.
  assert (Hperm : Permutation sorted (allLateShipmentsOf rows))
    by apply (proj1 engine).
  assert (Hsorted : descendingBy lateDelay sorted)
    by apply (sorted_late_shipments sort rows engine).
  unfold descendingBy in *.
  exists (skipn 5 sorted). split; [|split; [|split; [|split]]].
  - rewrite Hsplit. exact Hperm.
  - unfold topLateShipmentsOf. fold sorted.
    rewrite length_firstn, (Permutation_length Hperm). reflexivity.
  - rewrite <- Hsplit in Hsorted. clear Hsplit.
    induction (topLateShipmentsOf sort rows) as [|a l IH]; [constructor|].
    cbn [app] in Hsorted. apply StronglySorted_inv in Hsorted.
    destruct Hsorted as [Hl Ha]. constructor; [apply IH; exact Hl|].
    apply Forall_app in Ha. tauto.
  - intros s Hs.
    assert (Hin : In s (allLateShipmentsOf rows)).
    { apply (Permutation_in _ Hperm). rewrite <- Hsplit.
      apply in_or_app. left. exact Hs. }
    unfold allLateShipmentsOf in Hin. apply filter_In in Hin.
    destruct Hin as [Hin Hpos]. split; [exact Hpos|].
    apply in_map_iff in Hin. destruct Hin as [row [Hrow Hin]].
    exists row. auto.
  - rewrite <- Hsplit in Hsorted. clear Hsplit.
    induction (topLateShipmentsOf sort rows) as [|a l IH]; intros s t [] .
    + subst s. intros Ht. cbn [app] in Hsorted.
      apply StronglySorted_inv in Hsorted. destruct Hsorted as [_ Ha].
      rewrite Forall_forall in Ha. apply Ha. apply in_or_app. right. exact Ht.
    + intros Ht. cbn [app] in Hsorted. apply StronglySorted_inv in Hsorted.
      destruct Hsorted as [Hl _]. apply (IH Hl s t); assumption.
Qed.

Lemma X11_top_late_shipments_witness :
  exists rest,
    Permutation (topLateShipmentsOf stableSort mixedRows ++ rest)
      (allLateShipmentsOf mixedRows)
    /\ List.length (topLateShipmentsOf stableSort mixedRows)
       = Nat.min 5 (List.length (allLateShipmentsOf mixedRows))
    /\ descendingBy lateDelay (topLateShipmentsOf stableSort mixedRows)
    /\ (forall s, In s (topLateShipmentsOf stableSort mixedRows) ->
          (0 <? lateDelay s) = true
          /\ exists row, In row mixedRows /\ s = toLateShipment row)
    /\ (forall s t, In s (topLateShipmentsOf stableSort mixedRows) -> In t rest ->
          (lateDelay t <=? lateDelay s) = true).
Proof. apply (X11_top_late_shipments stableSort mixedRows stableSort_conforming). Defined.

(** X12.  Late shipments with the same delay are listed in the order of
    their rows: the shipments of any one delay in the table are the first of
    the late rows with that delay, in row order. *)
Theorem X12_late_shipments_ties_in_row_order
  (sort : forall A : Type, (A -> A -> float) -> list A -> list A)
  (rows : list JS.row) (d : float) :
  conforming sort ->
  exists later,
    filter (fun s => lateDelay s =? d) (allLateShipmentsOf rows)
    = (filter (fun s => lateDelay s =? d) (topLateShipmentsOf sort rows)
       ++ later)%list.
Proof.
  intros engine.
  set (sorted := sort _ byDelayDesc (allLateShipmentsOf rows)).
  exists (filter (fun s => lateDelay s =? d) (skipn 5 sorted)).
  rewrite <- filter_app. unfold topLateShipmentsOf. fold sorted.
  rewrite firstn_skipn. subst sorted.
  rewrite (proj1 (sorted_late_shipments sort rows engine)).
  symmetry. apply filter_insertionSort.
  intros a b Ha Hb. unfold placedAfter, byDelayDesc. rewrite sub_pos_ltb.
  exact (eqb_same_not_ltb _ _ _ Ha Hb).
Qed.

Lemma X12_late_shipments_ties_in_row_order_witness :
  exists later,
    filter (fun s => lateDelay s =? 4) (allLateShipmentsOf mixedRows)
    = (filter (fun s => lateDelay s =? 4) (topLateShipmentsOf stableSort mixedRows)
       ++ later)%list.
Proof.
  apply (X12_late_shipments_ties_in_row_order stableSort mixedRows 4
           stableSort_conforming).
Defined.

(** ** The preview table *)





Section PreviewColumns.

Variable lower : string -> string.



End PreviewColumns.





(** ** The guided tour *)

Import Walkthrough.

Lemma handle_in_range (t : tour) (e : event) :
  (currentStep t < List.length steps)%nat ->
  (currentStep (handle t e) < List.length steps)%nat.
Proof.
  change (List.length steps) with 11%nat. intros H.
  assert (Hn : (currentStep (next t) < 11)%nat).
  { unfold next. change (List.length steps - 1)%nat with 10%nat.
    destruct (Nat.ltb_spec (currentStep t) 10); cbn [currentStep stop]; lia. }
  assert (Hp : (currentStep (previous t) < 11)%nat).
  { unfold previous. destruct (Nat.ltb_spec 0 (currentStep t)); cbn [currentStep]; lia. }
  destruct e; cbn [handle start stop currentStep]; try assumption; try lia.
  - destruct (isActive t); [|exact H].
    destruct (_ || _); [exact Hn|].
    destruct (String.eqb key "ArrowLeft"); [exact Hp|].
    destruct (String.eqb key "Escape"); [cbn; exact H | exact H].
  - destruct (isActive t); [exact Hn | exact H].
Qed.

Lemma run_snoc (t : tour) (events : list event) (e : event) :
  run t (events ++ [e]) = handle (run t events) e.
Proof. unfold run. rewrite fold_left_app. reflexivity. Qed.

(** X14.  Whatever is clicked or typed, and whenever the timer fires, the
    tour's step index stays inside the list of steps, so the step that
    [updateStep] displays always exists. *)
Theorem X14_tour_step_in_range (events : list event) :
  (currentStep (run created events) < List.length steps)%nat
  /\ exists step, shownStep (run created events) = Some step.
Proof.
  assert (H : (currentStep (run created events) < List.length steps)%nat).
  { induction events as [|e events IH] using rev_ind.
    - cbn. lia.
    - rewrite run_snoc. apply handle_in_range. exact IH. }
  split; [exact H|].
  unfold shownStep. destruct (nth_error steps _) as [step|] eqn:E.
  - exists step. reflexivity.
  - apply nth_error_None in E. lia.
Qed.



(** X16.  A tour that is not running stays that way until a start button is
    clicked: keys and the timer leave it untouched, and the other buttons do
    not activate it. *)
Theorem X16_stopped_tour_stays_stopped (t : tour) (events : list event) :
  isActive t = false ->
  Forall (fun e => e <> ClickStart) events ->
  isActive (run t events) = false
  /\ (Forall (fun e => match e with KeyDown _ | AutoAdvance => True | _ => False end)
        events -> run t events = t).
Proof.
  intros Ht Hev. split.
  - induction events as [|e events IH] using rev_ind; [exact Ht|].
    apply Forall_app in Hev. destruct Hev as [Hev He].
    inversion He as [|? ? Hne _]; subst.
    rewrite run_snoc. specialize (IH Hev).
    assert (Hn : isActive (next (run t events)) = false).
    { unfold next. destruct (Nat.ltb _ _); cbn [isActive stop]; auto. }
    assert (Hp : isActive (previous (run t events)) = false).
    { unfold previous. destruct (Nat.ltb _ _); cbn [isActive]; auto. }
    destruct e; cbn [handle]; try assumption; try reflexivity.
    + contradiction.
    + rewrite IH. exact IH.
    + rewrite IH. exact IH.
  - intros Hk. clear Hev. revert t Ht.
    induction Hk as [|e events He _ IH]; intros t Ht; [reflexivity|].
    change (run t (e :: events)) with (run (handle t e) events).
    destruct e; try contradiction; cbn [handle]; rewrite Ht; apply IH; exact Ht.
Qed.

Lemma X16_stopped_tour_stays_stopped_witness :
  isActive (run created [KeyDown "Enter"; AutoAdvance; KeyDown "Escape"]) = false
  /\ (Forall (fun e => match e with KeyDown _ | AutoAdvance => True | _ => False end)
        [KeyDown "Enter"; AutoAdvance; KeyDown "Escape"]
      -> run created [KeyDown "Enter"; AutoAdvance; KeyDown "Escape"] = created).
Proof.
  apply (X16_stopped_tour_stays_stopped created).
  - reflexivity.
  - repeat constructor; discriminate.
Defined.


